(** * useNetworkDevices (no React Query variant): the polling cache of
      the device list

    Shallow embedding of [frontend-fix-examples/useNetworkDevicesNoQuery.ts].

    The hook keeps four React state cells ([devices], [isLoading],
    [isFetching], [error]) and two refs ([cacheRef], [abortControllerRef]).
    Its only procedure, the async function [fetchDevices], is cut at its
    suspension points: the part that runs when it is called, and the part
    that runs once the request has settled.  Both run inside the same
    [try]/[catch], which is modelled with a state-and-exception monad. *)

From Stdlib Require Import List String Ascii Bool Arith NArith ZArith Lia.
From Stdlib Require Import DecimalString DecimalN.
Import ListNotations.

Local Open Scope list_scope.
Local Open Scope string_scope.

(** ** JavaScript values the hook handles *)

(** A device, as [response.json()] builds it: an object, that is its own
    properties in the order [JSON.stringify] goes through them (for keys
    such as those of the interface, the order of insertion).  Every field
    of the [NetworkDevice] interface is a string, so a property is a pair
    of a key and a string value. *)
Definition NetworkDevice : Type := list (string * string).

Definition lookup_prop (key : string) (o : NetworkDevice) : option string :=
  match find (fun kv => String.eqb (fst kv) key) o with
  | Some kv => Some (snd kv)
  | None => None
  end.

Fixpoint unique_keys (o : NetworkDevice) : bool :=
  match o with
  | [] => true
  | kv :: rest =>
      match lookup_prop (fst kv) rest with
      | Some _ => false
      | None => unique_keys rest
      end
  end.

Definition is_status (v : string) : bool :=
  String.eqb v "online" || String.eqb v "offline" || String.eqb v "warning".

Definition is_field (k : string) : bool :=
  existsb (String.eqb k)
    ["id"; "name"; "ip"; "mac"; "status"; "type"; "lastSeen"].

Definition has_prop (key : string) (o : NetworkDevice) : bool :=
  match lookup_prop key o with Some _ => true | None => false end.

(** The [NetworkDevice] interface: [id], [name], [ip] and [status] are
    required, [mac], [type] and [lastSeen] are optional, and [status] is
    one of three literals.  TypeScript erases it; the hook never checks
    it. *)
Definition conforms_NetworkDevice (o : NetworkDevice) : bool :=
  unique_keys o
  && forallb (fun kv => is_field (fst kv)) o
  && has_prop "id" o && has_prop "name" o && has_prop "ip" o
  && match lookup_prop "status" o with
     | Some v => is_status v
     | None => false
     end.

(** An [Error] object, as far as the hook looks at it. *)
Record JsError : Type := mkError {
  name : string;
  message : string
}.

(** [new Error(msg)] *)
Definition new_Error (msg : string) : JsError :=
  {| name := "Error"; message := msg |}.

(** What a [throw] or a rejected promise carries: an instance of [Error]
    ([TypeError], [SyntaxError] and [DOMException] are), or any other
    value. *)
Inductive Thrown : Type :=
| ThrownError (e : JsError)
| ThrownOther.

(** ** JSON.stringify on a device list *)

Definition dquote : ascii := "034"%char.
Definition backslash : ascii := "092"%char.

Definition hex_digit (n : nat) : ascii :=
  if (n <? 10)%nat then ascii_of_nat (48 + n) else ascii_of_nat (87 + n).

(** QuoteJSONString, one code unit at a time.  Strings are sequences of
    8-bit code units here; units from 0x20 up other than the quote and the
    backslash are copied. *)
Definition QuoteJSONChar (c : ascii) : string :=
  let n := nat_of_ascii c in
  if (n =? 8)%nat then "\b"
  else if (n =? 9)%nat then "\t"
  else if (n =? 10)%nat then "\n"
  else if (n =? 12)%nat then "\f"
  else if (n =? 13)%nat then "\r"
  else if (n =? 34)%nat then String backslash (String dquote EmptyString)
  else if (n =? 92)%nat then "\\"
  else if (n <? 32)%nat then
    "\u00" ++ String (hex_digit (n / 16)) (String (hex_digit (n mod 16)) EmptyString)
  else String c EmptyString.

Fixpoint escape_chars (s : string) : string :=
  match s with
  | EmptyString => EmptyString
  | String c rest => QuoteJSONChar c ++ escape_chars rest
  end.

Definition QuoteJSONString (s : string) : string :=
  String dquote (escape_chars s ++ String dquote EmptyString).

Definition stringify_prop (kv : string * string) : string :=
  QuoteJSONString (fst kv) ++ ":" ++ QuoteJSONString (snd kv).

(** The elements of a list, separated by commas. *)
Fixpoint join_comma {A : Type} (f : A -> string) (l : list A) : string :=
  match l with
  | [] => EmptyString
  | [x] => f x
  | x :: rest => f x ++ "," ++ join_comma f rest
  end.

Definition stringify_device (o : NetworkDevice) : string :=
  "{" ++ join_comma stringify_prop o ++ "}".

Definition JSON_stringify (l : list NetworkDevice) : string :=
  "[" ++ join_comma stringify_device l ++ "]".

(** Deep equality of two snapshots, as the specification words it: the
    same devices in the same order, each with the same properties,
    whatever the order the properties were inserted in. *)
Definition same_props (a b : NetworkDevice) : bool :=
  Nat.eqb (List.length a) (List.length b)
  && forallb (fun kv =>
       match lookup_prop (fst kv) b with
       | Some v => String.eqb v (snd kv)
       | None => false
       end) a.

Fixpoint deep_equal (l1 l2 : list NetworkDevice) : bool :=
  match l1, l2 with
  | [], [] => true
  | a :: r1, b :: r2 => same_props a b && deep_equal r1 r2
  | _, _ => false
  end.

(** ** The transport: what [fetch] and [response.json()] settle to *)

(** What [await response.json()] gives: the parsed value, an array of
    devices as the annotation of line 60 declares it, or a rejection (a
    [SyntaxError] on a malformed body, an [AbortError] when the signal
    fires while the body is read).  A body that is no array is the matter
    of the module [Untyped] below. *)
Inductive JsonResult : Type :=
| JsonValue (newDevices : list NetworkDevice)
| JsonRejected (t : Thrown).

Record Response : Type := mkResponse {
  status : N;
  body : JsonResult
}.

(** [response.ok]: the status is in the range 200 to 299. *)
Definition ok (r : Response) : bool :=
  (200 <=? status r)%N && (status r <=? 299)%N.

(** What [await fetch(...)] gives: a rejection (a [TypeError] on a network
    failure, an [AbortError] when the signal fires) or a response. *)
Inductive FetchOutcome : Type :=
| FetchRejected (t : Thrown)
| FetchResponded (r : Response).

(** ** The hook's state *)

Record UseNetworkDevicesOptions : Type := mkOptions {
  refetchInterval : N;
  enabled : bool
}.

Definition default_options : UseNetworkDevicesOptions :=
  {| refetchInterval := 10000; enabled := true |}.

(** The four [useState] cells, the two refs, and what the hook has set up
    in its environment.  A controller is named by the rank of its
    creation.  [devicesVersion] counts the calls of [setDevices]: each call
    passes the array a [response.json()] has just built, a new object, so
    each call changes the identity of [devices]. *)
Record World : Type := mkWorld {
  devices : list NetworkDevice;
  devicesVersion : nat;
  isLoading : bool;
  isFetching : bool;
  error : option JsError;
  cacheRef : list NetworkDevice;
  abortControllerRef : option nat;
  nextController : nat;     (* controllers created so far *)
  aborted : list nat;       (* controllers whose [abort()] was called *)
  inflight : list nat;      (* requests issued and not settled yet *)
  pollTimer : bool          (* the [setInterval] timer is set *)
}.

(** The state after the first render, before any effect has run. *)
Definition initial_world : World :=
  {| devices := []; devicesVersion := 0;
     isLoading := true; isFetching := false; error := None;
     cacheRef := []; abortControllerRef := None;
     nextController := 0; aborted := []; inflight := [];
     pollTimer := false |}.

(** What the consumer of the hook reads. *)
Definition cache_state (w : World)
  : list NetworkDevice * nat * bool * bool * option JsError :=
  (devices w, devicesVersion w, isLoading w, isFetching w, error w).

(** ** A monad for state and exceptions *)

Inductive Completion (A : Type) : Type :=
| Normal (a : A)
| Throw (t : Thrown).
Arguments Normal {A} a.
Arguments Throw {A} t.

Definition M (A : Type) : Type := World -> Completion A * World.

Definition ret {A : Type} (a : A) : M A := fun w => (Normal a, w).

Definition throw {A : Type} (t : Thrown) : M A := fun w => (Throw t, w).

Definition bind {A B : Type} (m : M A) (k : A -> M B) : M B :=
  fun w =>
    match m w with
    | (Normal a, w') => k a w'
    | (Throw t, w') => (Throw t, w')
    end.

(** [try { body } catch (err) { handler }]: the writes of [body] before
    the throw stay. *)
Definition try_catch {A : Type} (body : M A) (handler : Thrown -> M A) : M A :=
  fun w =>
    match body w with
    | (Normal a, w') => (Normal a, w')
    | (Throw t, w') => handler t w'
    end.

Definition exec {A : Type} (m : M A) (w : World) : World := snd (m w).

Definition completion {A : Type} (m : M A) (w : World) : Completion A :=
  fst (m w).

Declare Scope hook_scope.
Delimit Scope hook_scope with hook.
Notation "x <- c1 ;; c2" := (bind c1 (fun x => c2))
  (at level 61, c1 at next level, right associativity) : hook_scope.
Notation "c1 ;; c2" := (bind c1 (fun _ => c2))
  (at level 61, right associativity) : hook_scope.
Local Open Scope hook_scope.

Definition read {A : Type} (cell : World -> A) : M A :=
  fun w => (Normal (cell w), w).

Definition modify (f : World -> World) : M unit :=
  fun w => (Normal tt, f w).

(** *** State setters and ref writes *)

Definition setDevices (l : list NetworkDevice) : M unit :=
  modify (fun w =>
    {| devices := l; devicesVersion := S (devicesVersion w);
       isLoading := isLoading w; isFetching := isFetching w;
       error := error w; cacheRef := cacheRef w;
       abortControllerRef := abortControllerRef w;
       nextController := nextController w; aborted := aborted w;
       inflight := inflight w; pollTimer := pollTimer w |}).

Definition setIsLoading (b : bool) : M unit :=
  modify (fun w =>
    {| devices := devices w; devicesVersion := devicesVersion w;
       isLoading := b; isFetching := isFetching w;
       error := error w; cacheRef := cacheRef w;
       abortControllerRef := abortControllerRef w;
       nextController := nextController w; aborted := aborted w;
       inflight := inflight w; pollTimer := pollTimer w |}).

Definition setIsFetching (b : bool) : M unit :=
  modify (fun w =>
    {| devices := devices w; devicesVersion := devicesVersion w;
       isLoading := isLoading w; isFetching := b;
       error := error w; cacheRef := cacheRef w;
       abortControllerRef := abortControllerRef w;
       nextController := nextController w; aborted := aborted w;
       inflight := inflight w; pollTimer := pollTimer w |}).

Definition setError (e : option JsError) : M unit :=
  modify (fun w =>
    {| devices := devices w; devicesVersion := devicesVersion w;
       isLoading := isLoading w; isFetching := isFetching w;
       error := e; cacheRef := cacheRef w;
       abortControllerRef := abortControllerRef w;
       nextController := nextController w; aborted := aborted w;
       inflight := inflight w; pollTimer := pollTimer w |}).

Definition write_cacheRef (l : list NetworkDevice) : M unit :=
  modify (fun w =>
    {| devices := devices w; devicesVersion := devicesVersion w;
       isLoading := isLoading w; isFetching := isFetching w;
       error := error w; cacheRef := l;
       abortControllerRef := abortControllerRef w;
       nextController := nextController w; aborted := aborted w;
       inflight := inflight w; pollTimer := pollTimer w |}).

Definition write_abortControllerRef (c : option nat) : M unit :=
  modify (fun w =>
    {| devices := devices w; devicesVersion := devicesVersion w;
       isLoading := isLoading w; isFetching := isFetching w;
       error := error w; cacheRef := cacheRef w;
       abortControllerRef := c;
       nextController := nextController w; aborted := aborted w;
       inflight := inflight w; pollTimer := pollTimer w |}).

(** *** The environment: controllers, requests, the timer *)

(** [new AbortController()] *)
Definition new_AbortController : M nat :=
  fun w =>
    (Normal (nextController w),
     {| devices := devices w; devicesVersion := devicesVersion w;
        isLoading := isLoading w; isFetching := isFetching w;
        error := error w; cacheRef := cacheRef w;
        abortControllerRef := abortControllerRef w;
        nextController := S (nextController w); aborted := aborted w;
        inflight := inflight w; pollTimer := pollTimer w |}).

(** [controller.abort()] *)
Definition abort (c : nat) : M unit :=
  modify (fun w =>
    {| devices := devices w; devicesVersion := devicesVersion w;
       isLoading := isLoading w; isFetching := isFetching w;
       error := error w; cacheRef := cacheRef w;
       abortControllerRef := abortControllerRef w;
       nextController := nextController w; aborted := c :: aborted w;
       inflight := inflight w; pollTimer := pollTimer w |}).

(** [fetch('/api/devices', { signal })], up to the [await]: the request
    is on its way, under the signal of controller [c]. *)
Definition fetch (c : nat) : M unit :=
  modify (fun w =>
    {| devices := devices w; devicesVersion := devicesVersion w;
       isLoading := isLoading w; isFetching := isFetching w;
       error := error w; cacheRef := cacheRef w;
       abortControllerRef := abortControllerRef w;
       nextController := nextController w; aborted := aborted w;
       inflight := c :: inflight w; pollTimer := pollTimer w |}).

Definition set_inflight (l : list nat) (w : World) : World :=
  {| devices := devices w; devicesVersion := devicesVersion w;
     isLoading := isLoading w; isFetching := isFetching w;
     error := error w; cacheRef := cacheRef w;
     abortControllerRef := abortControllerRef w;
     nextController := nextController w; aborted := aborted w;
     inflight := l; pollTimer := pollTimer w |}.

Definition set_pollTimer (b : bool) (w : World) : World :=
  {| devices := devices w; devicesVersion := devicesVersion w;
     isLoading := isLoading w; isFetching := isFetching w;
     error := error w; cacheRef := cacheRef w;
     abortControllerRef := abortControllerRef w;
     nextController := nextController w; aborted := aborted w;
     inflight := inflight w; pollTimer := b |}.

Definition mem (c : nat) (l : list nat) : bool := existsb (Nat.eqb c) l.

Definition remove_id (c : nat) (l : list nat) : list nat :=
  filter (fun x => negb (Nat.eqb c x)) l.

(** [console.error(...)] changes nothing the hook reads. *)
Definition console_error : M unit := ret tt.

(** The template literal's [${response.status}]: the decimal digits. *)
Definition status_text (n : N) : string :=
  NilZero.string_of_uint (N.to_uint n).

(** [err instanceof Error && err.name === 'AbortError'] *)
Definition is_AbortError (err : Thrown) : bool :=
  match err with
  | ThrownError e => String.eqb (name e) "AbortError"
  | ThrownOther => false
  end.

(** ** fetchDevices *)

Section Hook.

Variable options : UseNetworkDevicesOptions.

(** The [try] block from its start to the [await fetch(...)].  It leaves
    the request in flight; the function is suspended. *)
Definition fetchDevices_begin (isInitialLoad : bool) : M unit :=
  current <- read abortControllerRef ;;
  match current with
  | Some c => abort c
  | None => ret tt
  end ;;
  c <- new_AbortController ;;
  write_abortControllerRef (Some c) ;;
  cache <- read cacheRef ;;
  (if (0 <? List.length cache)%nat && negb isInitialLoad
   then setIsFetching true
   else setIsLoading true) ;;
  current <- read abortControllerRef ;;
  match current with
  | Some c => fetch c
  | None => throw (ThrownError {| name := "TypeError"; message := "null" |})
  end.

(** The [try] block from the [await fetch(...)] on, run when the request
    has settled to [o].  Nothing is read or written between the two
    [await]s, so [o] tells what both gave. *)
Definition fetchDevices_resume (o : FetchOutcome) : M unit :=
  response <- match o with
              | FetchRejected t => throw t
              | FetchResponded r => ret r
              end ;;
  (if negb (ok response)
   then throw (ThrownError
                 (new_Error ("HTTP error! status: " ++ status_text (status response))))
   else ret tt) ;;
  newDevices <- match body response with
                | JsonValue l => ret l
                | JsonRejected t => throw t
                end ;;
  cache <- read cacheRef ;;
  let hasChanged :=
    negb (String.eqb (JSON_stringify newDevices) (JSON_stringify cache)) in
  (if hasChanged
   then write_cacheRef newDevices ;; setDevices newDevices
   else ret tt) ;;
  setError None ;;
  setIsLoading false ;;
  setIsFetching false.

(** The [catch] block. *)
Definition fetchDevices_catch (err : Thrown) : M unit :=
  if is_AbortError err then ret tt
  else
    console_error ;;
    setError (Some match err with
                   | ThrownError e => e
                   | ThrownOther => new_Error "Unknown error"
                   end) ;;
    setIsFetching false ;;
    cache <- read cacheRef ;;
    if (0 <? List.length cache)%nat then setIsLoading false else ret tt.

(** A call [fetchDevices(isInitialLoad)], up to its suspension. *)
Definition fetchDevices_call (isInitialLoad : bool) : M unit :=
  if negb (enabled options) then ret tt
  else try_catch (fetchDevices_begin isInitialLoad) fetchDevices_catch.

(** The rest of the call, from the settled request to the return. *)
Definition fetchDevices_settle (o : FetchOutcome) : M unit :=
  try_catch (fetchDevices_resume o) fetchDevices_catch.

(** [refetch()] *)
Definition refetch : M unit := fetchDevices_call false.

(** ** The hook as a transition system *)

Inductive Event : Type :=
| EffectRun                           (* the effect body, lines 93 to 100 *)
| Tick                                (* the interval's callback *)
| Refetch                             (* the consumer calls [refetch()] *)
| Settle (c : nat) (o : FetchOutcome) (* the request under controller [c] settles *)
| EffectCleanup.                      (* the effect's cleanup, lines 103 to 106 *)

Definition effect_cleanup : M unit :=
  modify (set_pollTimer false) ;;
  current <- read abortControllerRef ;;
  match current with
  | Some c => abort c
  | None => ret tt
  end.

Definition step (e : Event) (w : World) : World :=
  match e with
  | EffectRun =>
      if negb (enabled options) then w
      else set_pollTimer true (exec (fetchDevices_call true) w)
  | Tick =>
      if pollTimer w then exec (fetchDevices_call false) w else w
  | Refetch => exec refetch w
  | Settle c o =>
      if mem c (inflight w)
      then exec (fetchDevices_settle o) (set_inflight (remove_id c (inflight w)) w)
      else w
  | EffectCleanup => exec effect_cleanup w
  end.

Definition run (events : list Event) (w : World) : World :=
  fold_left (fun w e => step e w) events w.

Definition reachable (w : World) : Prop :=
  exists events, w = run events initial_world.

End Hook.

(** What a request whose signal has fired settles to, by the Fetch
    standard: [fetch] rejects with an [AbortError], or, when the response
    had arrived already, reading its body rejects with one. *)
Definition abort_outcome (o : FetchOutcome) : bool :=
  match o with
  | FetchRejected t => is_AbortError t
  | FetchResponded r =>
      ok r && match body r with
              | JsonRejected t => is_AbortError t
              | JsonValue _ => false
              end
  end.

(** The transport honours the signal: a request whose controller was
    aborted settles to nothing but the abort. *)
Definition honours_abort (w : World) (e : Event) : bool :=
  match e with
  | Settle c o => if mem c (aborted w) then abort_outcome o else true
  | _ => true
  end.

(** ** Sample values *)

Definition dev_A : NetworkDevice :=
  [("id", "1"); ("name", "A"); ("ip", "10.0.0.1"); ("status", "online")].
Definition dev_A' : NetworkDevice :=
  [("name", "A"); ("id", "1"); ("ip", "10.0.0.1"); ("status", "online")].

Definition AbortError : Thrown :=
  ThrownError {| name := "AbortError"; message := "The operation was aborted." |}.
Definition NetworkError : Thrown :=
  ThrownError {| name := "TypeError"; message := "Failed to fetch" |}.
Definition ok_with (l : list NetworkDevice) : FetchOutcome :=
  FetchResponded {| status := 200; body := JsonValue l |}.


(** ** The parts of fetchDevices in closed form *)

(** The HTTP error of line 57. *)
Definition http_error (r : Response) : JsError :=
  new_Error ("HTTP error! status: " ++ status_text (status r)).

(** The outcomes of a settled request, sorted by what the [try] block
    does with them. *)
Inductive Verdict : Type :=
| Succeeds (l : list NetworkDevice)
| Fails (err : Thrown).

Definition verdict (o : FetchOutcome) : Verdict :=
  match o with
  | FetchRejected t => Fails t
  | FetchResponded r =>
      if ok r then
        match body r with
        | JsonValue l => Succeeds l
        | JsonRejected t => Fails t
        end
      else Fails (ThrownError (http_error r))
  end.

(** The state the [catch] block leaves when the error is not a
    cancellation. *)
Definition after_failure (err : Thrown) (w : World) : World :=
  {| devices := devices w; devicesVersion := devicesVersion w;
     isLoading := if (0 <? List.length (cacheRef w))%nat then false else isLoading w;
     isFetching := false;
     error := Some match err with
                   | ThrownError e => e
                   | ThrownOther => new_Error "Unknown error"
                   end;
     cacheRef := cacheRef w;
     abortControllerRef := abortControllerRef w;
     nextController := nextController w; aborted := aborted w;
     inflight := inflight w; pollTimer := pollTimer w |}.

(** The state the [try] block leaves when it runs to its end with the
    parsed list [l]. *)
Definition after_success (l : list NetworkDevice) (w : World) : World :=
  let hasChanged :=
    negb (String.eqb (JSON_stringify l) (JSON_stringify (cacheRef w))) in
  {| devices := if hasChanged then l else devices w;
     devicesVersion := if hasChanged then S (devicesVersion w) else devicesVersion w;
     isLoading := false; isFetching := false; error := None;
     cacheRef := if hasChanged then l else cacheRef w;
     abortControllerRef := abortControllerRef w;
     nextController := nextController w; aborted := aborted w;
     inflight := inflight w; pollTimer := pollTimer w |}.

(** The state a call leaves at its suspension, when the hook is enabled. *)
Definition after_call (isInitialLoad : bool) (w : World) : World :=
  let background := (0 <? List.length (cacheRef w))%nat && negb isInitialLoad in
  {| devices := devices w; devicesVersion := devicesVersion w;
     isLoading := if background then isLoading w else true;
     isFetching := if background then true else isFetching w;
     error := error w; cacheRef := cacheRef w;
     abortControllerRef := Some (nextController w);
     nextController := S (nextController w);
     aborted := match abortControllerRef w with
                | Some c => c :: aborted w
                | None => aborted w
                end;
     inflight := nextController w :: inflight w;
     pollTimer := pollTimer w |}.

(** A settled request hands the hook an empty list: a response with a
    2xx status whose body parses to [[]]. *)
Definition delivers_empty (e : Event) : bool :=
  match e with
  | Settle _ o =>
      match verdict o with
      | Succeeds [] => true
      | _ => false
      end
  | _ => false
  end.

(** The operations that follow the first load: a tick of the poll timer,
    a manual refetch, a settled request. *)
Definition later_operation (e : Event) : bool :=
  match e with
  | Tick | Refetch | Settle _ _ => true
  | EffectRun | EffectCleanup => false
  end.

Definition is_Settle (e : Event) : bool :=
  match e with
  | Settle _ _ => true
  | _ => false
  end.

(** Every request in flight that was not issued under the current
    controller has had its controller aborted. *)
Definition superseded_are_aborted (w : World) : Prop :=
  (forall c, In c (inflight w) -> c < nextController w)
  /\ (forall c, abortControllerRef w = Some c -> c < nextController w)
  /\ (forall c, In c (inflight w) -> abortControllerRef w <> Some c ->
                In c (aborted w)).

(** All the code units. *)
Definition all_ascii : list ascii := map ascii_of_nat (seq 0 256).

(** Two strings part at some position both have. *)
Fixpoint diverge (a b : string) : bool :=
  match a, b with
  | String x a', String y b' =>
      if Ascii.eqb x y then diverge a' b' else true
  | _, _ => false
  end.

(** * The code around fetchDevices *)

(** ** Runs over a transport that honours the signal *)

(** Every completion of the run is one the transport may deliver: a
    request whose controller was aborted by then settles to the abort. *)
Fixpoint honouring (options : UseNetworkDevicesOptions)
         (events : list Event) (w : World) : Prop :=
  match events with
  | [] => True
  | e :: rest =>
      honours_abort w e = true /\ honouring options rest (step options e w)
  end.

(** The request under controller [c] has not been aborted. *)
Definition live (w : World) (c : nat) : bool := negb (mem c (aborted w)).

(** A settled request that takes the [try] block to its end. *)
Definition succeeds (e : Event) : bool :=
  match e with
  | Settle _ o =>
      match verdict o with
      | Succeeds _ => true
      | Fails _ => false
      end
  | _ => false
  end.

(** A poll tick or a settled request: what can still happen once the
    component is gone. *)
Definition tick_or_settle (e : Event) : bool :=
  match e with
  | Tick | Settle _ _ => true
  | _ => false
  end.

(** ** NetworkDeviceList, the component that uses the hook *)

Inductive Grid : Type :=
| EmptyState                                        (* "no devices" *)
| DeviceGrid (cards : list (option string * NetworkDevice)).
                                                    (* a card per device, with its key *)

Inductive View : Type :=
| LoadingState                      (* the spinner, lines 119 to 128 *)
| ErrorState (detail : string)      (* the error screen with its retry button *)
| DevicesView (refreshIndicator : bool) (deviceCount : nat)
              (refreshDisabled : bool) (warningBanner : bool) (grid : Grid).

(** [<DeviceCard key={device.id} device={device} />] *)
Definition card_of (device : NetworkDevice) : option string * NetworkDevice :=
  (lookup_prop "id" device, device).

(** What the component returns for the values the hook gives it. *)
Definition NetworkDeviceList (w : World) : View :=
  let listView :=
    DevicesView (isFetching w) (List.length (devices w)) (isFetching w)
      (match error w with Some _ => true | None => false end
       && (0 <? List.length (devices w))%nat)
      (if (List.length (devices w) =? 0)%nat
       then EmptyState
       else DeviceGrid (map card_of (devices w))) in
  if isLoading w && (List.length (devices w) =? 0)%nat then LoadingState
  else
    match error w with
    | Some e =>
        if (List.length (devices w) =? 0)%nat then ErrorState (message e)
        else listView
    | None => listView
    end.

(** The comparison [memo] is given for [DeviceCard]: true when the card
    need not render again. *)
Definition DeviceCard_propsAreEqual (prevDevice nextDevice : NetworkDevice) : bool :=
  String.eqb (stringify_device prevDevice) (stringify_device nextDevice).

(** ** useDeviceSSE: the update of the list on a message *)

(** [a === b] on two values that are strings or [undefined]. *)
Definition strict_equals (a b : option string) : bool :=
  match a, b with
  | Some x, Some y => String.eqb x y
  | None, None => true
  | _, _ => false
  end.

(** [Array.prototype.findIndex]: the first index whose element satisfies
    [p], or -1. *)
Fixpoint findIndex_from {A : Type} (p : A -> bool) (i : Z) (l : list A) : Z :=
  match l with
  | [] => (-1)%Z
  | x :: rest => if p x then i else findIndex_from p (i + 1)%Z rest
  end.

Definition findIndex {A : Type} (p : A -> bool) (l : list A) : Z :=
  findIndex_from p 0%Z l.

(** [updated[n] = x] on a copy of [l], for an index within [l]; the
    function is only used with the index [findIndex] found. *)
Fixpoint assign {A : Type} (n : nat) (x : A) (l : list A) : list A :=
  match l, n with
  | [], _ => []
  | _ :: rest, O => x :: rest
  | y :: rest, S n' => y :: assign n' x rest
  end.

(** The function given to [setDevices] in [onmessage]. *)
Definition onmessage_update (newDevice : NetworkDevice)
           (prev : list NetworkDevice) : list NetworkDevice :=
  let index :=
    findIndex (fun d => strict_equals (lookup_prop "id" d)
                                      (lookup_prop "id" newDevice)) prev in
  if (0 <=? index)%Z
  then assign (Z.to_nat index) newDevice prev
  else (prev ++ [newDevice])%list.

(** The same update by recursion on the list: the first element that
    satisfies [p] gives way to [x]; without one, [x] goes to the end. *)
Fixpoint replace_first {A : Type} (p : A -> bool) (x : A) (l : list A) : list A :=
  match l with
  | [] => [x]
  | y :: rest => if p y then x :: rest else y :: replace_first p x rest
  end.

(** [d.id === k] *)
Definition has_id (k : option string) (d : NetworkDevice) : bool :=
  strict_equals (lookup_prop "id" d) k.

(** The list after the messages of a stream, the oldest first. *)
Definition useDeviceSSE (messages : list NetworkDevice) : list NetworkDevice :=
  fold_left (fun prev newDevice => onmessage_update newDevice prev) messages [].

(** The last element of [l] that satisfies [p]. *)
Definition find_last {A : Type} (p : A -> bool) (l : list A) : option A :=
  find p (rev l).

(** ** useNetworkDevices with React Query: the delay before a retry *)

(** [Math.min(1000 * 2 ** attemptIndex, 30000)] *)
Definition retryDelay (attemptIndex : N) : N :=
  N.min (1000 * 2 ^ attemptIndex) 30000.

(** ** useCachedDevices, the hook of the guide *)

Module CachedDevices.

(** The [try] block up to [await fetch(...)]. *)
Definition fetchDevices_begin : M unit :=
  cache <- read cacheRef ;;
  if (0 <? List.length cache)%nat then setIsFetching true else ret tt.

(** The [try] block from the [await fetch(...)] on.  The status of the
    response is not looked at. *)
Definition fetchDevices_resume (o : FetchOutcome) : M unit :=
  response <- match o with
              | FetchRejected t => throw t
              | FetchResponded r => ret r
              end ;;
  newDevices <- match body response with
                | JsonValue l => ret l
                | JsonRejected t => throw t
                end ;;
  cache <- read cacheRef ;;
  (if negb (String.eqb (JSON_stringify newDevices) (JSON_stringify cache))
   then write_cacheRef newDevices ;; setDevices newDevices
   else ret tt) ;;
  setIsLoading false ;;
  setIsFetching false.

(** The [catch] block. *)
Definition fetchDevices_catch (err : Thrown) : M unit :=
  console_error ;;
  setIsFetching false.

Definition fetchDevices_call : M unit :=
  try_catch fetchDevices_begin fetchDevices_catch.

Definition fetchDevices_settle (o : FetchOutcome) : M unit :=
  try_catch (fetchDevices_resume o) fetchDevices_catch.

Inductive Event : Type :=
| EffectRun                  (* the effect: a first call, then the interval *)
| Tick                       (* the interval's callback *)
| Settle (o : FetchOutcome)  (* a request settles *)
| EffectCleanup.             (* [clearInterval] *)

Definition step (e : Event) (w : World) : World :=
  match e with
  | EffectRun => set_pollTimer true (exec fetchDevices_call w)
  | Tick => if pollTimer w then exec fetchDevices_call w else w
  | Settle o => exec (fetchDevices_settle o) w
  | EffectCleanup => set_pollTimer false w
  end.

Definition run (events : list Event) (w : World) : World :=
  fold_left (fun w e => step e w) events w.

(** A settled request whose body was read and parsed. *)
Definition parsed (e : Event) : bool :=
  match e with
  | Settle (FetchResponded r) =>
      match body r with
      | JsonValue _ => true
      | JsonRejected _ => false
      end
  | _ => false
  end.

End CachedDevices.

(** The two states a settled request of [useCachedDevices] leaves. *)
Definition after_success_cached (l : list NetworkDevice) (w : World) : World :=
  let hasChanged :=
    negb (String.eqb (JSON_stringify l) (JSON_stringify (cacheRef w))) in
  {| devices := if hasChanged then l else devices w;
     devicesVersion := if hasChanged then S (devicesVersion w) else devicesVersion w;
     isLoading := false; isFetching := false; error := error w;
     cacheRef := if hasChanged then l else cacheRef w;
     abortControllerRef := abortControllerRef w;
     nextController := nextController w; aborted := aborted w;
     inflight := inflight w; pollTimer := pollTimer w |}.

Definition set_isFetching_false (w : World) : World :=
  {| devices := devices w; devicesVersion := devicesVersion w;
     isLoading := isLoading w; isFetching := false; error := error w;
     cacheRef := cacheRef w;
     abortControllerRef := abortControllerRef w;
     nextController := nextController w; aborted := aborted w;
     inflight := inflight w; pollTimer := pollTimer w |}.

(** ** cleanup.sh: the answer that confirms a deletion *)

(** Extended regular expressions, as far as the script uses them. *)
Inductive Regex : Type :=
| NoMatch
| EmptyMatch
| OneOf (cs : list ascii)         (* a bracket expression *)
| Then (r1 r2 : Regex)
| Or (r1 r2 : Regex).

Fixpoint nullable (r : Regex) : bool :=
  match r with
  | NoMatch => false
  | EmptyMatch => true
  | OneOf _ => false
  | Then r1 r2 => nullable r1 && nullable r2
  | Or r1 r2 => nullable r1 || nullable r2
  end.

(** What is left of [r] to match once [c] has been read. *)
Fixpoint derive (c : ascii) (r : Regex) : Regex :=
  match r with
  | NoMatch => NoMatch
  | EmptyMatch => NoMatch
  | OneOf cs => if existsb (Ascii.eqb c) cs then EmptyMatch else NoMatch
  | Then r1 r2 =>
      if nullable r1
      then Or (Then (derive c r1) r2) (derive c r2)
      else Then (derive c r1) r2
  | Or r1 r2 => Or (derive c r1) (derive c r2)
  end.

(** [[ s =~ ^r$ ]] *)
Fixpoint matches (r : Regex) (s : string) : bool :=
  match s with
  | EmptyString => nullable r
  | String c rest => matches (derive c r) rest
  end.

(** [([yY][eE][sS]|[yY])] *)
Definition confirm_pattern : Regex :=
  Or (Then (OneOf ["y"; "Y"]%char)
           (Then (OneOf ["e"; "E"]%char) (OneOf ["s"; "S"]%char)))
     (OneOf ["y"; "Y"]%char).

(** The test of lines 21 and 36 on the answer read. *)
Definition confirms (response : string) : bool :=
  matches confirm_pattern response.

(** ** The start script: waiting for a service *)

Inductive ShellAction : Type :=
| Curl (i : nat)           (* the probe of round [i] *)
| EchoReady                (* the service is reported ready *)
| EchoWaiting (i : nat)    (* "waiting (i/30)" *)
| Sleep (seconds : nat).

(** [for i in {1..30}; do if curl ...; then echo ready; break; fi;
    echo waiting; sleep 2; done], from round [i] with [rounds] rounds
    left; [probe i] tells whether the [curl] of round [i] succeeds. *)
Fixpoint wait_loop_from (probe : nat -> bool) (i rounds : nat) : list ShellAction :=
  match rounds with
  | O => []
  | S rounds' =>
      Curl i ::
      (if probe i then [EchoReady]
       else EchoWaiting i :: Sleep 2 :: wait_loop_from probe (S i) rounds')
  end.

Definition wait_loop (probe : nat -> bool) : list ShellAction :=
  wait_loop_from probe 1 30.

(** The seconds the actions sleep. *)
Fixpoint slept (actions : list ShellAction) : nat :=
  match actions with
  | [] => 0
  | Sleep n :: rest => n + slept rest
  | _ :: rest => slept rest
  end.

(** ** fetchDevices when the body need not be an array *)

(** TypeScript erases the annotation of line 60: [response.json()] gives
    whatever the body holds.  This module runs [fetchDevices] again, with
    [devices] and [cacheRef.current] holding either an array of devices
    or [null], the value that makes [cacheRef.current.length] throw.  The
    other JSON values are left out. *)
Module Untyped.

Inductive JsValue : Type :=
| JsNull
| JsArray (l : list NetworkDevice).

(** [JSON.stringify(v)] *)
Definition stringify_value (v : JsValue) : string :=
  match v with
  | JsNull => "null"
  | JsArray l => JSON_stringify l
  end.

(** What a request settles to: one of the outcomes above, or a response
    whose body parses to [null]. *)
Inductive Outcome : Type :=
| Typed (o : FetchOutcome)
| RespondedNull (status : N).

Record State : Type := mkState {
  devices : JsValue;
  devicesVersion : nat;
  isLoading : bool;
  isFetching : bool;
  error : option JsError;
  cacheRef : JsValue;
  abortControllerRef : option nat;
  nextController : nat;
  aborted : list nat;
  inflight : list nat;
  pollTimer : bool
}.

Definition initial_state : State :=
  {| devices := JsArray []; devicesVersion := 0;
     isLoading := true; isFetching := false; error := None;
     cacheRef := JsArray []; abortControllerRef := None;
     nextController := 0; aborted := []; inflight := [];
     pollTimer := false |}.

Definition M (A : Type) : Type := State -> Completion A * State.

Definition ret {A : Type} (a : A) : M A := fun w => (Normal a, w).

Definition throw {A : Type} (t : Thrown) : M A := fun w => (Throw t, w).

Definition bind {A B : Type} (m : M A) (k : A -> M B) : M B :=
  fun w =>
    match m w with
    | (Normal a, w') => k a w'
    | (Throw t, w') => (Throw t, w')
    end.

Definition try_catch {A : Type} (body : M A) (handler : Thrown -> M A) : M A :=
  fun w =>
    match body w with
    | (Normal a, w') => (Normal a, w')
    | (Throw t, w') => handler t w'
    end.

Definition exec {A : Type} (m : M A) (w : State) : State := snd (m w).

Definition completion {A : Type} (m : M A) (w : State) : Completion A :=
  fst (m w).

Declare Scope untyped_scope.
Notation "x <- c1 ;; c2" := (bind c1 (fun x => c2))
  (at level 61, c1 at next level, right associativity) : untyped_scope.
Notation "c1 ;; c2" := (bind c1 (fun _ => c2))
  (at level 61, right associativity) : untyped_scope.
Local Open Scope untyped_scope.

Definition read {A : Type} (cell : State -> A) : M A :=
  fun w => (Normal (cell w), w).

Definition modify (f : State -> State) : M unit :=
  fun w => (Normal tt, f w).

Definition setDevices (v : JsValue) : M unit :=
  modify (fun w =>
    {| devices := v; devicesVersion := S (devicesVersion w);
       isLoading := isLoading w; isFetching := isFetching w;
       error := error w; cacheRef := cacheRef w;
       abortControllerRef := abortControllerRef w;
       nextController := nextController w; aborted := aborted w;
       inflight := inflight w; pollTimer := pollTimer w |}).

Definition setIsLoading (b : bool) : M unit :=
  modify (fun w =>
    {| devices := devices w; devicesVersion := devicesVersion w;
       isLoading := b; isFetching := isFetching w;
       error := error w; cacheRef := cacheRef w;
       abortControllerRef := abortControllerRef w;
       nextController := nextController w; aborted := aborted w;
       inflight := inflight w; pollTimer := pollTimer w |}).

Definition setIsFetching (b : bool) : M unit :=
  modify (fun w =>
    {| devices := devices w; devicesVersion := devicesVersion w;
       isLoading := isLoading w; isFetching := b;
       error := error w; cacheRef := cacheRef w;
       abortControllerRef := abortControllerRef w;
       nextController := nextController w; aborted := aborted w;
       inflight := inflight w; pollTimer := pollTimer w |}).

Definition setError (e : option JsError) : M unit :=
  modify (fun w =>
    {| devices := devices w; devicesVersion := devicesVersion w;
       isLoading := isLoading w; isFetching := isFetching w;
       error := e; cacheRef := cacheRef w;
       abortControllerRef := abortControllerRef w;
       nextController := nextController w; aborted := aborted w;
       inflight := inflight w; pollTimer := pollTimer w |}).

Definition write_cacheRef (v : JsValue) : M unit :=
  modify (fun w =>
    {| devices := devices w; devicesVersion := devicesVersion w;
       isLoading := isLoading w; isFetching := isFetching w;
       error := error w; cacheRef := v;
       abortControllerRef := abortControllerRef w;
       nextController := nextController w; aborted := aborted w;
       inflight := inflight w; pollTimer := pollTimer w |}).

Definition write_abortControllerRef (c : option nat) : M unit :=
  modify (fun w =>
    {| devices := devices w; devicesVersion := devicesVersion w;
       isLoading := isLoading w; isFetching := isFetching w;
       error := error w; cacheRef := cacheRef w;
       abortControllerRef := c;
       nextController := nextController w; aborted := aborted w;
       inflight := inflight w; pollTimer := pollTimer w |}).

Definition new_AbortController : M nat :=
  fun w =>
    (Normal (nextController w),
     {| devices := devices w; devicesVersion := devicesVersion w;
        isLoading := isLoading w; isFetching := isFetching w;
        error := error w; cacheRef := cacheRef w;
        abortControllerRef := abortControllerRef w;
        nextController := S (nextController w); aborted := aborted w;
        inflight := inflight w; pollTimer := pollTimer w |}).

Definition abort (c : nat) : M unit :=
  modify (fun w =>
    {| devices := devices w; devicesVersion := devicesVersion w;
       isLoading := isLoading w; isFetching := isFetching w;
       error := error w; cacheRef := cacheRef w;
       abortControllerRef := abortControllerRef w;
       nextController := nextController w; aborted := c :: aborted w;
       inflight := inflight w; pollTimer := pollTimer w |}).

Definition fetch (c : nat) : M unit :=
  modify (fun w =>
    {| devices := devices w; devicesVersion := devicesVersion w;
       isLoading := isLoading w; isFetching := isFetching w;
       error := error w; cacheRef := cacheRef w;
       abortControllerRef := abortControllerRef w;
       nextController := nextController w; aborted := aborted w;
       inflight := c :: inflight w; pollTimer := pollTimer w |}).

Definition console_error : M unit := ret tt.

(** The [TypeError] of a property read on [null]. *)
Definition null_TypeError : Thrown :=
  ThrownError {| name := "TypeError";
                 message := "Cannot read properties of null (reading 'length')" |}.

(** [v.length > 0] *)
Definition length_positive (v : JsValue) : M bool :=
  match v with
  | JsNull => throw null_TypeError
  | JsArray l => ret (0 <? List.length l)%nat
  end.

Section Hook.

Variable options : UseNetworkDevicesOptions.

(** The [try] block up to the [await fetch(...)]: lines 40 to 54. *)
Definition fetchDevices_begin (isInitialLoad : bool) : M unit :=
  current <- read abortControllerRef ;;
  match current with
  | Some c => abort c
  | None => ret tt
  end ;;
  c <- new_AbortController ;;
  write_abortControllerRef (Some c) ;;
  cache <- read cacheRef ;;
  hasCache <- length_positive cache ;;
  (if hasCache && negb isInitialLoad
   then setIsFetching true
   else setIsLoading true) ;;
  current <- read abortControllerRef ;;
  match current with
  | Some c => fetch c
  | None => throw (ThrownError {| name := "TypeError"; message := "null" |})
  end.

(** The [try] block from the [await fetch(...)] on: lines 52 to 73. *)
Definition fetchDevices_resume (o : Outcome) : M unit :=
  code <- match o with
          | Typed (FetchRejected t) => throw t
          | Typed (FetchResponded r) => ret (status r)
          | RespondedNull st => ret st
          end ;;
  (if negb ((200 <=? code)%N && (code <=? 299)%N)
   then throw (ThrownError
                 (new_Error ("HTTP error! status: " ++ status_text code)))
   else ret tt) ;;
  newDevices <- match o with
                | Typed (FetchRejected t) => throw t
                | Typed (FetchResponded r) =>
                    match body r with
                    | JsonValue l => ret (JsArray l)
                    | JsonRejected t => throw t
                    end
                | RespondedNull _ => ret JsNull
                end ;;
  cache <- read cacheRef ;;
  let hasChanged :=
    negb (String.eqb (stringify_value newDevices) (stringify_value cache)) in
  (if hasChanged
   then write_cacheRef newDevices ;; setDevices newDevices
   else ret tt) ;;
  setError None ;;
  setIsLoading false ;;
  setIsFetching false.

(** The [catch] block: lines 74 to 88. *)
Definition fetchDevices_catch (err : Thrown) : M unit :=
  if is_AbortError err then ret tt
  else
    console_error ;;
    setError (Some match err with
                   | ThrownError e => e
                   | ThrownOther => new_Error "Unknown error"
                   end) ;;
    setIsFetching false ;;
    cache <- read cacheRef ;;
    hasCache <- length_positive cache ;;
    if hasCache then setIsLoading false else ret tt.

(** A call [fetchDevices(isInitialLoad)], up to its suspension, or to its
    end when it throws before. *)
Definition fetchDevices_call (isInitialLoad : bool) : M unit :=
  if negb (enabled options) then ret tt
  else try_catch (fetchDevices_begin isInitialLoad) fetchDevices_catch.

(** The rest of the call, from the settled request to the return. *)
Definition fetchDevices_settle (o : Outcome) : M unit :=
  try_catch (fetchDevices_resume o) fetchDevices_catch.

(** [refetch()] *)
Definition refetch : M unit := fetchDevices_call false.

Inductive Event : Type :=
| Call (isInitialLoad : bool)   (* the effect, a tick or [refetch()] *)
| Settle (c : nat) (o : Outcome).

(** A step of the hook, with what the promise of the call gets: a normal
    completion, or the value it is rejected with. *)
Definition step (e : Event) (w : State) : Completion unit * State :=
  match e with
  | Call isInitialLoad => fetchDevices_call isInitialLoad w
  | Settle c o =>
      if mem c (inflight w)
      then fetchDevices_settle o
             {| devices := devices w; devicesVersion := devicesVersion w;
                isLoading := isLoading w; isFetching := isFetching w;
                error := error w; cacheRef := cacheRef w;
                abortControllerRef := abortControllerRef w;
                nextController := nextController w; aborted := aborted w;
                inflight := remove_id c (inflight w);
                pollTimer := pollTimer w |}
      else (Normal tt, w)
  end.

(** The completions of the steps of a run, the first step first. *)
Fixpoint completions (events : list Event) (w : State) : list (Completion unit) :=
  match events with
  | [] => []
  | e :: rest => fst (step e w) :: completions rest (snd (step e w))
  end.

End Hook.

(** The body of the settled request, when it is read, is an array. *)
Definition array_bodied (e : Event) : bool :=
  match e with
  | Settle _ (RespondedNull _) => false
  | _ => true
  end.

End Untyped.

(** A state of the hook among those of [Untyped]: its lists are arrays. *)
Definition as_untyped (w : World) : Untyped.State :=
  {| Untyped.devices := Untyped.JsArray (devices w);
     Untyped.devicesVersion := devicesVersion w;
     Untyped.isLoading := isLoading w;
     Untyped.isFetching := isFetching w;
     Untyped.error := error w;
     Untyped.cacheRef := Untyped.JsArray (cacheRef w);
     Untyped.abortControllerRef := abortControllerRef w;
     Untyped.nextController := nextController w;
     Untyped.aborted := aborted w;
     Untyped.inflight := inflight w;
     Untyped.pollTimer := pollTimer w |}.

(** Unfolding of the monad and of the primitive operations. *)
Ltac unfold_hook :=
  cbv beta iota zeta delta
    [fetchDevices_begin fetchDevices_resume fetchDevices_catch
     exec completion try_catch bind ret throw read modify
     setDevices setIsLoading setIsFetching setError write_cacheRef
     write_abortControllerRef new_AbortController abort fetch
     console_error negb
     devices devicesVersion isLoading isFetching error cacheRef
     abortControllerRef nextController aborted inflight pollTimer].

(** * Properties *)

(** ** JSON.stringify tells two device lists apart *)

Lemma append_assoc (a b c : string) : (a ++ b) ++ c = a ++ (b ++ c).
Proof.
  induction a as [|x a IH]; simpl; [reflexivity | now rewrite IH].
Qed.

Lemma append_inv_head (a x y : string) : a ++ x = a ++ y -> x = y.
Proof.
  induction a as [|c a IH]; simpl; intros H; [exact H |].
  injection H as H. now apply IH.
Qed.

Lemma diverge_append (a b x y : string) :
  diverge a b = true -> a ++ x <> b ++ y.
Proof.
  revert b. induction a as [|c a IH]; intros [|d b]; simpl; try discriminate.
  destruct (Ascii.eqb_spec c d) as [->|Hcd]; intros Hd H; injection H.
  - intros H'. exact (IH b Hd H').
  - intros _ Hc. exact (Hcd Hc).
Qed.

Lemma all_ascii_complete (c : ascii) : In c all_ascii.
Proof.
  unfold all_ascii. rewrite <- (ascii_nat_embedding c).
  apply in_map, in_seq. pose proof (nat_ascii_bounded c). lia.
Qed.

Lemma QuoteJSONChar_head (c : ascii) :
  exists a s, QuoteJSONChar c = String a s /\ a <> dquote.
Proof.
  assert (H : forallb (fun c => match QuoteJSONChar c with
                                | String a _ => negb (Ascii.eqb a dquote)
                                | EmptyString => false
                                end) all_ascii = true) by (vm_compute; reflexivity).
  rewrite forallb_forall in H. specialize (H c (all_ascii_complete c)).
  destruct (QuoteJSONChar c) as [|a s]; [discriminate |].
  exists a, s. split; [reflexivity |].
  intros ->. rewrite Ascii.eqb_refl in H. discriminate.
Qed.

Lemma QuoteJSONChar_prefix_free (c c' : ascii) (x y : string) :
  QuoteJSONChar c ++ x = QuoteJSONChar c' ++ y -> c = c' /\ x = y.
Proof.
  assert (H : forallb (fun c => forallb (fun c' =>
                Ascii.eqb c c' || diverge (QuoteJSONChar c) (QuoteJSONChar c'))
                all_ascii) all_ascii = true) by (vm_compute; reflexivity).
  rewrite forallb_forall in H. specialize (H c (all_ascii_complete c)).
  rewrite forallb_forall in H. specialize (H c' (all_ascii_complete c')).
  intros E. destruct (Ascii.eqb_spec c c') as [->|Hne].
  - split; [reflexivity | exact (append_inv_head _ _ _ E)].
  - simpl in H. exfalso. exact (diverge_append _ _ _ _ H E).
Qed.

Lemma escape_chars_inj (s1 s2 r1 r2 : string) :
  escape_chars s1 ++ String dquote r1 = escape_chars s2 ++ String dquote r2 ->
  s1 = s2 /\ r1 = r2.
Proof.
  revert s2. induction s1 as [|c s1 IH]; intros [|c' s2]; simpl.
  - intros H. injection H as H. now split.
  - rewrite append_assoc.
    destruct (QuoteJSONChar_head c') as (a & s & -> & Ha). simpl.
    intros H. injection H as H _. now elim Ha.
  - rewrite append_assoc.
    destruct (QuoteJSONChar_head c) as (a & s & -> & Ha). simpl.
    intros H. injection H as H _. now elim Ha.
  - rewrite !append_assoc. intros H.
    apply QuoteJSONChar_prefix_free in H as [-> H].
    apply IH in H as [-> ->]. now split.
Qed.

Lemma QuoteJSONString_inj (s1 s2 r1 r2 : string) :
  QuoteJSONString s1 ++ r1 = QuoteJSONString s2 ++ r2 -> s1 = s2 /\ r1 = r2.
Proof.
  unfold QuoteJSONString. simpl. rewrite !append_assoc. simpl.
  intros H. injection H as H. now apply escape_chars_inj.
Qed.

Lemma stringify_prop_inj (p1 p2 : string * string) (r1 r2 : string) :
  stringify_prop p1 ++ r1 = stringify_prop p2 ++ r2 -> p1 = p2 /\ r1 = r2.
Proof.
  destruct p1 as [k1 v1], p2 as [k2 v2]. unfold stringify_prop. simpl fst. simpl snd.
  rewrite !append_assoc. intros H.
  apply QuoteJSONString_inj in H as [-> H]. cbn [append] in H. injection H as H.
  rewrite !append_assoc in H. apply escape_chars_inj in H as [-> ->]. now split.
Qed.

Lemma join_comma_cons {A : Type} (f : A -> string) (x : A) (rest : list A) :
  join_comma f (x :: rest)
  = f x ++ match rest with
           | [] => EmptyString
           | _ :: _ => "," ++ join_comma f rest
           end.
Proof.
  destruct rest; simpl; [| reflexivity].
  induction (f x) as [|c s IH]; simpl; [reflexivity | now rewrite <- IH].
Qed.

Section Join.

Variable A : Type.
Variable f : A -> string.
Variables opening closing : ascii.

Hypothesis f_opens : forall a, exists s, f a = String opening s.
Hypothesis f_prefix_free :
  forall a b x y, f a ++ x = f b ++ y -> a = b /\ x = y.
Hypothesis closing_not_opening : closing <> opening.
Hypothesis closing_not_comma : closing <> ","%char.

Lemma join_comma_inj (l1 l2 : list A) (r1 r2 : string) :
  join_comma f l1 ++ String closing r1 = join_comma f l2 ++ String closing r2 ->
  l1 = l2 /\ r1 = r2.
Proof.
  revert l2. induction l1 as [|a l1 IH]; intros [|b l2].
  - simpl. intros H. injection H as H. now split.
  - rewrite join_comma_cons, append_assoc.
    destruct (f_opens b) as [s ->]. simpl.
    intros H. injection H as H _. now elim closing_not_opening.
  - rewrite join_comma_cons, append_assoc.
    destruct (f_opens a) as [s ->]. simpl.
    intros H. injection H as H _. now elim closing_not_opening.
  - rewrite !join_comma_cons, !append_assoc. intros H.
    apply f_prefix_free in H as [-> H].
    destruct l1 as [|a1 l1], l2 as [|b1 l2].
    + simpl in H. injection H as H. now split.
    + simpl in H. injection H as H _. now elim closing_not_comma.
    + simpl in H. injection H as H _. now elim closing_not_comma.
    + cbn [append] in H. injection H as H.
      change (join_comma f (a1 :: l1) ++ String closing r1
              = join_comma f (b1 :: l2) ++ String closing r2) in H.
      apply IH in H as [-> ->]. now split.
Qed.

End Join.

Lemma stringify_device_inj (o1 o2 : NetworkDevice) (r1 r2 : string) :
  stringify_device o1 ++ r1 = stringify_device o2 ++ r2 -> o1 = o2 /\ r1 = r2.
Proof.
  unfold stringify_device. simpl. rewrite !append_assoc. simpl.
  intros H. injection H as H.
  apply (join_comma_inj _ stringify_prop dquote) in H; auto.
  - intros [k v]. eexists. reflexivity.
  - apply stringify_prop_inj.
  - discriminate.
  - discriminate.
Qed.

Lemma JSON_stringify_inj (l1 l2 : list NetworkDevice) :
  JSON_stringify l1 = JSON_stringify l2 -> l1 = l2.
Proof.
  unfold JSON_stringify. simpl. intros H. injection H as H.
  apply (join_comma_inj _ stringify_device "{"%char) in H.
  - tauto.
  - intros o. eexists. reflexivity.
  - apply stringify_device_inj.
  - discriminate.
  - discriminate.
Qed.

(** The comparison of line 64, on the values compared. *)
Lemma hasChanged_iff (newDevices cache : list NetworkDevice) :
  negb (String.eqb (JSON_stringify newDevices) (JSON_stringify cache)) = true
  <-> newDevices <> cache.
Proof.
  rewrite negb_true_iff, String.eqb_neq. split.
  - intros H E. apply H. now rewrite E.
  - intros H E. apply H. now apply JSON_stringify_inj.
Qed.

(** ** What each part of fetchDevices does to the state *)

Lemma catch_abort (err : Thrown) (w : World) :
  is_AbortError err = true -> fetchDevices_catch err w = (Normal tt, w).
Proof. intros H. unfold fetchDevices_catch. rewrite H. reflexivity. Qed.

Lemma catch_failure (err : Thrown) (w : World) :
  is_AbortError err = false ->
  fetchDevices_catch err w = (Normal tt, after_failure err w).
Proof.
  intros H. unfold after_failure. destruct w. unfold_hook. rewrite H.
  destruct (0 <? List.length _)%nat; reflexivity.
Qed.

Lemma resume_rejected (t : Thrown) (w : World) :
  fetchDevices_resume (FetchRejected t) w = (Throw t, w).
Proof. reflexivity. Qed.

Lemma resume_not_ok (r : Response) (w : World) :
  ok r = false ->
  fetchDevices_resume (FetchResponded r) w = (Throw (ThrownError (http_error r)), w).
Proof.
  intros H. unfold_hook. rewrite H. reflexivity.
Qed.

Lemma resume_json_rejected (r : Response) (t : Thrown) (w : World) :
  ok r = true -> body r = JsonRejected t ->
  fetchDevices_resume (FetchResponded r) w = (Throw t, w).
Proof.
  intros H Hb. unfold_hook. rewrite H. unfold_hook. rewrite Hb. reflexivity.
Qed.

Lemma resume_success (r : Response) (l : list NetworkDevice) (w : World) :
  ok r = true -> body r = JsonValue l ->
  fetchDevices_resume (FetchResponded r) w = (Normal tt, after_success l w).
Proof.
  intros H Hb. unfold after_success. destruct w.
  unfold_hook. rewrite H. unfold_hook. rewrite Hb. unfold_hook.
  destruct (JSON_stringify l =? JSON_stringify _)%string; reflexivity.
Qed.

Lemma begin_eq (isInitialLoad : bool) (w : World) :
  fetchDevices_begin isInitialLoad w = (Normal tt, after_call isInitialLoad w).
Proof.
  unfold after_call. destruct w as [d v l f e cache [c|] n ab fl t]; unfold_hook;
    destruct (0 <? List.length cache)%nat, isInitialLoad; reflexivity.
Qed.

Lemma call_enabled (options : UseNetworkDevicesOptions) (b : bool) (w : World) :
  enabled options = true ->
  fetchDevices_call options b w = (Normal tt, after_call b w).
Proof.
  intros H. unfold fetchDevices_call. rewrite H. cbn [negb].
  unfold try_catch. rewrite begin_eq. reflexivity.
Qed.

Lemma call_disabled (options : UseNetworkDevicesOptions) (b : bool) (w : World) :
  enabled options = false ->
  fetchDevices_call options b w = (Normal tt, w).
Proof. intros H. unfold fetchDevices_call. rewrite H. reflexivity. Qed.

Lemma resume_verdict (o : FetchOutcome) (w : World) :
  fetchDevices_resume o w
  = match verdict o with
    | Succeeds l => (Normal tt, after_success l w)
    | Fails err => (Throw err, w)
    end.
Proof.
  destruct o as [t|r]; simpl; [reflexivity |].
  destruct (ok r) eqn:Hok.
  - destruct (body r) as [l|t] eqn:Hb.
    + now apply resume_success.
    + now apply resume_json_rejected.
  - now apply resume_not_ok.
Qed.

Lemma settle_verdict (o : FetchOutcome) (w : World) :
  fetchDevices_settle o w
  = (Normal tt,
     match verdict o with
     | Succeeds l => after_success l w
     | Fails err => if is_AbortError err then w else after_failure err w
     end).
Proof.
  unfold fetchDevices_settle, try_catch. rewrite resume_verdict.
  destruct (verdict o) as [l|err]; [reflexivity |].
  destruct (is_AbortError err) eqn:H.
  - now apply catch_abort.
  - now apply catch_failure.
Qed.

Lemma after_success_cases (l : list NetworkDevice) (w : World) :
  (l <> cacheRef w
   /\ devices (after_success l w) = l
   /\ devicesVersion (after_success l w) = S (devicesVersion w)
   /\ cacheRef (after_success l w) = l)
  \/ (l = cacheRef w
      /\ devices (after_success l w) = devices w
      /\ devicesVersion (after_success l w) = devicesVersion w
      /\ cacheRef (after_success l w) = cacheRef w).
Proof.
  unfold after_success.
  destruct (negb (JSON_stringify l =? JSON_stringify (cacheRef w))%string) eqn:Hch.
  - left. apply hasChanged_iff in Hch. cbn [devices devicesVersion cacheRef]. auto.
  - right. apply negb_false_iff, String.eqb_eq, JSON_stringify_inj in Hch.
    cbn [devices devicesVersion cacheRef]. auto.
Qed.

(** ** The transition system in closed form *)

Lemma step_Settle (options : UseNetworkDevicesOptions) (c : nat)
      (o : FetchOutcome) (w : World) :
  step options (Settle c o) w
  = if mem c (inflight w)
    then let w0 := set_inflight (remove_id c (inflight w)) w in
         match verdict o with
         | Succeeds l => after_success l w0
         | Fails err => if is_AbortError err then w0 else after_failure err w0
         end
    else w.
Proof.
  unfold step, exec. destruct (mem c (inflight w)); [| reflexivity].
  rewrite settle_verdict. reflexivity.
Qed.

Lemma step_call (options : UseNetworkDevicesOptions) (b : bool) (w : World) :
  exec (fetchDevices_call options b) w
  = if enabled options then after_call b w else w.
Proof.
  unfold exec. destruct (enabled options) eqn:H.
  - now rewrite call_enabled.
  - now rewrite call_disabled.
Qed.

Lemma step_EffectCleanup (options : UseNetworkDevicesOptions) (w : World) :
  devices (step options EffectCleanup w) = devices w
  /\ devicesVersion (step options EffectCleanup w) = devicesVersion w
  /\ isLoading (step options EffectCleanup w) = isLoading w
  /\ isFetching (step options EffectCleanup w) = isFetching w
  /\ error (step options EffectCleanup w) = error w
  /\ cacheRef (step options EffectCleanup w) = cacheRef w
  /\ abortControllerRef (step options EffectCleanup w) = abortControllerRef w
  /\ nextController (step options EffectCleanup w) = nextController w
  /\ inflight (step options EffectCleanup w) = inflight w
  /\ aborted (step options EffectCleanup w)
     = match abortControllerRef w with
       | Some c => c :: aborted w
       | None => aborted w
       end.
Proof.
  destruct w as [d v l f e cache [c|] n ab fl t]; cbv; repeat split.
Qed.

Lemma run_app (options : UseNetworkDevicesOptions) (l1 l2 : list Event)
      (w : World) :
  run options (l1 ++ l2)%list w = run options l2 (run options l1 w).
Proof. unfold run. apply fold_left_app. Qed.

Lemma run_cons (options : UseNetworkDevicesOptions) (e : Event)
      (l : list Event) (w : World) :
  run options (e :: l) w = run options l (step options e w).
Proof. reflexivity. Qed.

(** A property kept by every step the events of a run are allowed to
    take holds at the end of the run. *)
Lemma run_preserves (options : UseNetworkDevicesOptions)
      (P : World -> Prop) (allowed : Event -> bool) :
  (forall e w, allowed e = true -> P w -> P (step options e w)) ->
  forall events w,
    Forall (fun e => allowed e = true) events -> P w ->
    P (run options events w).
Proof.
  intros Hstep events. induction events as [|e events IH]; intros w Hall Hw.
  - exact Hw.
  - rewrite run_cons. inversion Hall; subst. apply IH; [assumption |].
    now apply Hstep.
Qed.

Lemma reachable_ind (options : UseNetworkDevicesOptions) (P : World -> Prop) :
  P initial_world ->
  (forall e w, P w -> P (step options e w)) ->
  forall w, reachable options w -> P w.
Proof.
  intros Hinit Hstep w [events ->].
  apply (run_preserves options P (fun _ => true)); auto.
  now apply Forall_forall.
Qed.

Lemma reachable_step (options : UseNetworkDevicesOptions) (e : Event)
      (w : World) :
  reachable options w -> reachable options (step options e w).
Proof.
  intros [events ->]. exists (events ++ [e])%list. now rewrite run_app.
Qed.

(** Each step either leaves [devices] and the cache as they are or
    stores one list in both. *)
Lemma step_devices_cache (options : UseNetworkDevicesOptions) (e : Event)
      (w : World) :
  (devices (step options e w) = devices w
   /\ devicesVersion (step options e w) = devicesVersion w
   /\ cacheRef (step options e w) = cacheRef w)
  \/ (exists c r l,
        e = Settle c (FetchResponded r) /\ ok r = true /\ body r = JsonValue l
        /\ l <> cacheRef w
        /\ devices (step options e w) = l
        /\ devicesVersion (step options e w) = S (devicesVersion w)
        /\ cacheRef (step options e w) = l).
Proof.
  destruct e as [| | |c o|].
  - left. unfold step. rewrite step_call.
    destruct (enabled options); simpl; auto.
  - left. unfold step. rewrite step_call.
    destruct (pollTimer w), (enabled options); simpl; auto.
  - left. unfold step, refetch. rewrite step_call.
    destruct (enabled options); simpl; auto.
  - rewrite step_Settle. destruct (mem c (inflight w)); [| now left].
    cbv zeta. destruct o as [t|r]; simpl verdict.
    + left. destruct (is_AbortError t); simpl; auto.
    + destruct (ok r) eqn:Hok.
      * destruct (body r) as [l|t] eqn:Hb.
        -- destruct (after_success_cases l
                       (set_inflight (remove_id c (inflight w)) w))
             as [(Hch & Hd & Hv & Hc) | (_ & Hd & Hv & Hc)].
           ++ right. exists c, r, l. repeat split; auto.
           ++ left. auto.
        -- left. destruct (is_AbortError t); simpl; auto.
      * left. simpl. auto.
  - left. pose proof (step_EffectCleanup options w). tauto.
Qed.

Lemma devices_cache_invariant (options : UseNetworkDevicesOptions) (w : World) :
  reachable options w -> devices w = cacheRef w.
Proof.
  revert w. apply (reachable_ind options (fun w => devices w = cacheRef w));
    [reflexivity |].
  intros e w' IH.
  destruct (step_devices_cache options e w')
    as [(Hd & _ & Hc) | (c & r & l & _ & _ & _ & _ & Hd & _ & Hc)]; congruence.
Qed.

Lemma verdict_success (r : Response) (l : list NetworkDevice) :
  ok r = true -> body r = JsonValue l -> verdict (FetchResponded r) = Succeeds l.
Proof. intros H Hb. simpl. now rewrite H, Hb. Qed.

Lemma catch_keeps_devices (err : Thrown) (w : World) :
  devices (exec (fetchDevices_catch err) w) = devices w
  /\ devicesVersion (exec (fetchDevices_catch err) w) = devicesVersion w
  /\ cacheRef (exec (fetchDevices_catch err) w) = cacheRef w.
Proof.
  unfold exec. destruct (is_AbortError err) eqn:H.
  - rewrite catch_abort by assumption. auto.
  - rewrite catch_failure by assumption. simpl. auto.
Qed.

(** ** The device list and its cache *)

(** C8.  The [devices] state and [cacheRef.current] hold the same list:
    both start empty, every operation either leaves both as they are or
    stores one and the same list in both, and after any sequence of
    operations and fetch completions they are equal. *)
Theorem devices_mirrors_cache (options : UseNetworkDevicesOptions) :
  devices initial_world = [] /\ cacheRef initial_world = []
  /\ (forall e w,
        (devices (step options e w) = devices w
         /\ cacheRef (step options e w) = cacheRef w)
        \/ (exists l, devices (step options e w) = l
                      /\ cacheRef (step options e w) = l))
  /\ (forall events,
        devices (run options events initial_world)
        = cacheRef (run options events initial_world)).
Proof.
  split; [reflexivity |]. split; [reflexivity |]. split.
  - intros e w.
    destruct (step_devices_cache options e w)
      as [(Hd & _ & Hc) | (c & r & l & _ & _ & _ & _ & Hd & _ & Hc)].
    + left. auto.
    + right. exists l. auto.
  - intros events. apply (devices_cache_invariant options). now exists events.
Qed.

(** C1, amended.  The failure handler never modifies [devices]; only a
    fetch that succeeds, with a list that differs from the cached one, can
    replace it; hence once [devices] is non-empty it stays non-empty
    through every sequence of operations and completions in which no
    successful fetch delivers an empty list. *)
Theorem devices_survive_failures (options : UseNetworkDevicesOptions) :
  (forall err w,
     devices (exec (fetchDevices_catch err) w) = devices w
     /\ devicesVersion (exec (fetchDevices_catch err) w) = devicesVersion w)
  /\ (forall e w,
        devices (step options e w) <> devices w ->
        exists c r l,
          e = Settle c (FetchResponded r) /\ ok r = true
          /\ body r = JsonValue l /\ devices (step options e w) = l)
  /\ (forall events w,
        devices w <> [] ->
        Forall (fun e => negb (delivers_empty e) = true) events ->
        devices (run options events w) <> []).
Proof.
  split; [| split].
  - intros err w. pose proof (catch_keeps_devices err w). tauto.
  - intros e w Hne.
    destruct (step_devices_cache options e w)
      as [(Hd & _ & _) | (c & r & l & He & Hok & Hb & _ & Hd & _ & _)].
    + now elim Hne.
    + exists c, r, l. auto.
  - intros events w Hw Hall.
    apply (run_preserves options (fun w => devices w <> [])
             (fun e => negb (delivers_empty e))); [| assumption | assumption].
    intros e w' He Hw'.
    destruct (step_devices_cache options e w')
      as [(Hd & _ & _) | (c & r & l & -> & Hok & Hb & _ & Hd & _ & _)].
    + now rewrite Hd.
    + rewrite Hd. intros ->.
      unfold delivers_empty in He. rewrite (verdict_success r []) in He by assumption.
      discriminate.
Qed.

Lemma devices_survive_failures_witness :
  devices (run default_options
             [Tick; Settle 1 (FetchRejected NetworkError); Refetch;
              Settle 2 (FetchResponded {| status := 500; body := JsonValue [] |})]
             (run default_options [EffectRun; Settle 0 (ok_with [dev_A])]
                initial_world))
  <> [].
Proof.
  apply (proj2 (proj2 (devices_survive_failures default_options))).
  - vm_compute. discriminate.
  - repeat constructor.
Defined.

(** C1 as stated fails: a successful fetch that returns an empty array
    empties [devices] after a non-empty snapshot. *)
Lemma devices_emptied_by_empty_success :
  let w1 := run default_options [EffectRun; Settle 0 (ok_with [dev_A])]
              initial_world in
  let w2 := run default_options [Tick; Settle 1 (ok_with [])] w1 in
  cacheRef w1 = [dev_A] /\ devices w1 = [dev_A] /\ devices w2 = [].
Proof. vm_compute. repeat split. Qed.

(** ** The failure branch *)

Lemma handled_failure (o : FetchOutcome) (err : Thrown) (w : World) :
  completion (fetchDevices_resume o) w = Throw err ->
  is_AbortError err = false ->
  error (exec (fetchDevices_settle o) w)
  = Some match err with
         | ThrownError e => e
         | ThrownOther => new_Error "Unknown error"
         end
  /\ isFetching (exec (fetchDevices_settle o) w) = false
  /\ isLoading (exec (fetchDevices_settle o) w)
     = (if (0 <? List.length (cacheRef w))%nat then false else isLoading w)
  /\ devices (exec (fetchDevices_settle o) w) = devices w
  /\ devicesVersion (exec (fetchDevices_settle o) w) = devicesVersion w
  /\ cacheRef (exec (fetchDevices_settle o) w) = cacheRef w.
Proof.
  unfold completion, exec. rewrite resume_verdict, settle_verdict.
  destruct (verdict o) as [l|err0]; simpl; [discriminate |].
  intros H. injection H as ->. intros Habort. rewrite Habort.
  simpl. repeat split.
Qed.

Lemma discarded_abort (o : FetchOutcome) (err : Thrown) (w : World) :
  completion (fetchDevices_resume o) w = Throw err ->
  is_AbortError err = true ->
  exec (fetchDevices_settle o) w = w.
Proof.
  unfold completion, exec. rewrite resume_verdict, settle_verdict.
  destruct (verdict o) as [l|err0]; simpl; [discriminate |].
  intros H. injection H as ->. intros Habort. now rewrite Habort.
Qed.

(** C5.  When the [try] block throws: an [AbortError] is discarded and
    nothing changes; any other failure sets [error] to the cause (a value
    that is not an [Error] is wrapped in [new Error('Unknown error')]),
    sets [isFetching] to false, and sets [isLoading] to false only if the
    cached list is non-empty; it leaves [devices] alone. *)
Theorem failure_handling (o : FetchOutcome) (err : Thrown) (w : World) :
  completion (fetchDevices_resume o) w = Throw err ->
  let w' := exec (fetchDevices_settle o) w in
  (is_AbortError err = true -> w' = w)
  /\ (is_AbortError err = false ->
      error w' = Some match err with
                      | ThrownError e => e
                      | ThrownOther => new_Error "Unknown error"
                      end
      /\ isFetching w' = false
      /\ isLoading w' = (if (0 <? List.length (cacheRef w))%nat
                         then false else isLoading w)
      /\ devices w' = devices w
      /\ devicesVersion w' = devicesVersion w
      /\ cacheRef w' = cacheRef w).
Proof.
  intros Hthrow. cbv zeta. split; intros Habort.
  - now apply (discarded_abort o err).
  - now apply handled_failure.
Qed.

Lemma failure_handling_witness :
  let w := run default_options [EffectRun; Settle 0 (ok_with [dev_A]); Tick]
             initial_world in
  let w' := exec (fetchDevices_settle (FetchRejected NetworkError)) w in
  error w' = Some {| name := "TypeError"; message := "Failed to fetch" |}
  /\ isFetching w' = false
  /\ isLoading w' = false
  /\ devices w' = [dev_A]
  /\ exec (fetchDevices_settle (FetchRejected AbortError)) w = w.
Proof.
  pose proof (failure_handling (FetchRejected NetworkError) NetworkError
                (run default_options
                   [EffectRun; Settle 0 (ok_with [dev_A]); Tick] initial_world)
                eq_refl) as [_ H].
  pose proof (failure_handling (FetchRejected AbortError) AbortError
                (run default_options
                   [EffectRun; Settle 0 (ok_with [dev_A]); Tick] initial_world)
                eq_refl) as [H' _].
  specialize (H eq_refl). specialize (H' eq_refl).
  destruct H as (He & Hf & Hl & Hd & _).
  exact (conj He (conj Hf (conj Hl (conj Hd H')))).
Defined.

(** ** The start of a cycle and its success branch *)

(** C6, amended.  With the hook enabled, a call sets [isFetching] to true
    exactly when the cached list is non-empty and the call is not the
    initial one, and then leaves [isLoading] alone; otherwise, so also
    when the only snapshot received so far is an empty array, it sets
    [isLoading] to true and leaves [isFetching] alone.  A cycle that
    succeeds clears [error] and sets [isLoading] and [isFetching] to
    false. *)
Theorem cycle_flags (options : UseNetworkDevicesOptions)
        (isInitialLoad : bool) (w : World) :
  enabled options = true ->
  let w' := exec (fetchDevices_call options isInitialLoad) w in
  (cacheRef w <> [] /\ isInitialLoad = false ->
   isFetching w' = true /\ isLoading w' = isLoading w)
  /\ (~ (cacheRef w <> [] /\ isInitialLoad = false) ->
      isLoading w' = true /\ isFetching w' = isFetching w)
  /\ (forall r l,
        ok r = true -> body r = JsonValue l ->
        let w'' := exec (fetchDevices_settle (FetchResponded r)) w' in
        error w'' = None /\ isLoading w'' = false /\ isFetching w'' = false).
Proof.
  intros Hen. rewrite step_call, Hen. cbv zeta. split; [| split].
  - intros [Hc ->]. destruct (cacheRef w) eqn:E; [now elim Hc |].
    unfold after_call. rewrite E. simpl. auto.
  - intros Hn. unfold after_call.
    destruct (cacheRef w) as [|d rest] eqn:E; simpl; [auto |].
    destruct isInitialLoad; simpl; [auto |].
    elim Hn. split; [discriminate | reflexivity].
  - intros r l Hok Hb. unfold exec. rewrite settle_verdict.
    rewrite (verdict_success r l) by assumption. simpl. auto.
Qed.

Lemma cycle_flags_witness :
  let w := run default_options [EffectRun; Settle 0 (ok_with [dev_A])]
             initial_world in
  let w' := exec (fetchDevices_call default_options false) w in
  isFetching w' = true /\ isLoading w' = isLoading w.
Proof.
  apply (proj1 (cycle_flags default_options false
                  (run default_options [EffectRun; Settle 0 (ok_with [dev_A])]
                     initial_world) eq_refl)).
  split; [vm_compute; discriminate | reflexivity].
Defined.

(** C6 as stated fails: after a first fetch that succeeded with an empty
    array a snapshot has been received, and yet the next call, which is
    not the initial one, sets [isLoading] and not [isFetching]. *)
Lemma empty_snapshot_starts_loading :
  let events := [EffectRun; Settle 0 (ok_with [])] in
  let w := run default_options events initial_world in
  let w' := exec (fetchDevices_call default_options false) w in
  existsb succeeds events = true
  /\ isLoading w = false /\ isFetching w = false /\ error w = None
  /\ isFetching w' = false /\ isLoading w' = true.
Proof. vm_compute. repeat split. Qed.

(** ** HTTP failures *)

Lemma status_text_inj (n m : N) : status_text n = status_text m -> n = m.
Proof.
  unfold status_text. intros H.
  assert (Hnil : forall k, N.to_uint k <> Decimal.Nil).
  { intros [|p]; [discriminate | apply DecimalPos.Unsigned.to_uint_nonnil]. }
  apply (f_equal NilZero.uint_of_string) in H.
  rewrite !NilZero.usu in H by apply Hnil.
  injection H as H. now apply DecimalN.Unsigned.to_uint_inj.
Qed.

(** C7.  The [try] block throws exactly when the request is rejected, the
    response is not 2xx, or reading the body is rejected.  A response that
    is not 2xx takes the [catch] branch with an error whose message carries
    the status code: [error] is set to it, and two such errors with the
    same message have the same status.  A 2xx response goes on to the
    parsed body, which becomes the cached device list. *)
Theorem http_failure (o : FetchOutcome) (w : World) :
  ((exists err, completion (fetchDevices_resume o) w = Throw err)
   <-> (exists t, o = FetchRejected t)
       \/ (exists r, o = FetchResponded r /\ ok r = false)
       \/ (exists r t, o = FetchResponded r /\ ok r = true
                       /\ body r = JsonRejected t))
  /\ (forall r,
        o = FetchResponded r -> ok r = false ->
        completion (fetchDevices_resume o) w
        = Throw (ThrownError
                   (new_Error ("HTTP error! status: " ++ status_text (status r))))
        /\ error (exec (fetchDevices_settle o) w)
           = Some (new_Error ("HTTP error! status: " ++ status_text (status r)))
        /\ devices (exec (fetchDevices_settle o) w) = devices w
        /\ forall r', http_error r' = http_error r -> status r' = status r)
  /\ (forall r l,
        o = FetchResponded r -> ok r = true -> body r = JsonValue l ->
        completion (fetchDevices_resume o) w = Normal tt
        /\ cacheRef (exec (fetchDevices_settle o) w) = l).
Proof.
  split; [| split].
  - unfold completion. rewrite resume_verdict. split.
    + intros [err H]. destruct o as [t|r].
      * left. now exists t.
      * right. simpl in H. destruct (ok r) eqn:Hok.
        -- destruct (body r) as [l|t] eqn:Hb; [discriminate |].
           right. now exists r, t.
        -- left. now exists r.
    + intros [[t ->] | [(r & -> & Hok) | (r & t & -> & Hok & Hb)]]; simpl.
      * now exists t.
      * rewrite Hok. eexists. reflexivity.
      * rewrite Hok, Hb. now exists t.
  - intros r -> Hok. unfold completion, exec.
    rewrite resume_verdict, settle_verdict. simpl verdict. rewrite Hok.
    simpl. repeat split.
    intros r' H. unfold http_error, new_Error in H. injection H as H.
    now apply status_text_inj.
  - intros r l -> Hok Hb. unfold completion, exec.
    rewrite resume_verdict, settle_verdict, (verdict_success r l) by assumption.
    split; [reflexivity |].
    destruct (after_success_cases l w) as [(_ & _ & _ & Hc) | (-> & _ & _ & Hc)];
      exact Hc.
Qed.

Lemma http_failure_witness :
  let w := run default_options [EffectRun] initial_world in
  let o := FetchResponded {| status := 503; body := JsonValue [dev_A] |} in
  error (exec (fetchDevices_settle o) w)
  = Some {| name := "Error"; message := "HTTP error! status: 503" |}
  /\ devices (exec (fetchDevices_settle o) w) = [].
Proof.
  destruct (proj1 (proj2 (http_failure
              (FetchResponded {| status := 503; body := JsonValue [dev_A] |})
              (run default_options [EffectRun] initial_world)))
              {| status := 503; body := JsonValue [dev_A] |} eq_refl eq_refl)
    as (_ & He & Hd & _).
  split; [exact He | exact Hd].
Defined.

(** ** An empty list is not a snapshot *)

(** C9.  After a successful fetch that returns an empty array the cached
    list is empty.  The next call that is not the initial one then sets
    [isLoading] to true and leaves [isFetching] alone, and a failure that
    is not a cancellation, right after the empty success or after that
    next call, leaves [isLoading] as it is. *)
Theorem empty_list_is_no_snapshot (options : UseNetworkDevicesOptions)
        (r : Response) (w : World) :
  enabled options = true ->
  ok r = true -> body r = JsonValue [] ->
  let w1 := exec (fetchDevices_settle (FetchResponded r)) w in
  let w2 := exec (fetchDevices_call options false) w1 in
  cacheRef w1 = []
  /\ isLoading w1 = false
  /\ isLoading w2 = true /\ isFetching w2 = isFetching w1
  /\ (forall o err,
        completion (fetchDevices_resume o) w1 = Throw err ->
        is_AbortError err = false ->
        isLoading (exec (fetchDevices_settle o) w1) = isLoading w1)
  /\ (forall o err,
        completion (fetchDevices_resume o) w2 = Throw err ->
        is_AbortError err = false ->
        isLoading (exec (fetchDevices_settle o) w2) = isLoading w2).
Proof.
  intros Hen Hok Hb. cbv zeta.
  assert (Hc : cacheRef (exec (fetchDevices_settle (FetchResponded r)) w) = []).
  { unfold exec. rewrite settle_verdict, (verdict_success r []) by assumption.
    destruct (after_success_cases [] w) as [(_ & _ & _ & H) | (E & _ & _ & H)];
      cbn [snd]; congruence. }
  assert (Hl : isLoading (exec (fetchDevices_settle (FetchResponded r)) w) = false).
  { unfold exec. rewrite settle_verdict, (verdict_success r []) by assumption.
    reflexivity. }
  set (w1 := exec (fetchDevices_settle (FetchResponded r)) w) in *.
  assert (Hfail : forall w0 o err,
            cacheRef w0 = [] ->
            completion (fetchDevices_resume o) w0 = Throw err ->
            is_AbortError err = false ->
            isLoading (exec (fetchDevices_settle o) w0) = isLoading w0).
  { intros w0 o err Hc0 Hthrow Hna.
    destruct (handled_failure o err w0 Hthrow Hna) as (_ & _ & H & _).
    rewrite H, Hc0. reflexivity. }
  rewrite step_call, Hen.
  assert (Hc2 : cacheRef (after_call false w1) = []) by exact Hc.
  assert (Hl2 : isLoading (after_call false w1) = true)
    by (unfold after_call; rewrite Hc; reflexivity).
  assert (Hf2 : isFetching (after_call false w1) = isFetching w1)
    by (unfold after_call; rewrite Hc; reflexivity).
  split; [exact Hc |]. split; [exact Hl |]. split; [exact Hl2 |].
  split; [exact Hf2 |]. split; intros o err; now apply Hfail.
Qed.

Lemma empty_list_is_no_snapshot_witness :
  let r := {| status := 200; body := JsonValue [] |} in
  let w := run default_options [EffectRun; Settle 0 (ok_with [dev_A]); Tick]
             initial_world in
  let w1 := exec (fetchDevices_settle (FetchResponded r)) w in
  let w2 := exec (fetchDevices_call default_options false) w1 in
  cacheRef w1 = [] /\ isLoading w1 = false
  /\ isLoading w2 = true /\ isFetching w2 = isFetching w1.
Proof.
  destruct (empty_list_is_no_snapshot default_options
              {| status := 200; body := JsonValue [] |}
              (run default_options [EffectRun; Settle 0 (ok_with [dev_A]); Tick]
                 initial_world) eq_refl eq_refl eq_refl)
    as (H1 & H2 & H3 & H4 & _).
  exact (conj H1 (conj H2 (conj H3 H4))).
Defined.

(** ** isLoading *)

(** C2, amended.  [isLoading] is true at creation and stays true as long
    as no request has settled.  The completion of a fetch never sets it to
    true.  A poll tick or a refetch sets it to true exactly when the cached
    list is empty (and the hook is enabled); hence, from a state where the
    cached list is non-empty and [isLoading] is false, no sequence of poll
    ticks, refetches and completions that deliver no empty list sets it to
    true again. *)
Theorem isLoading_not_reasserted_with_snapshot
        (options : UseNetworkDevicesOptions) :
  isLoading initial_world = true
  /\ (forall events,
        Forall (fun e => negb (is_Settle e) = true) events ->
        isLoading (run options events initial_world) = true)
  /\ (forall o w,
        isLoading w = false ->
        isLoading (exec (fetchDevices_settle o) w) = false)
  /\ (forall w,
        isLoading (exec (fetchDevices_call options false) w)
        = isLoading w || (enabled options && (List.length (cacheRef w) =? 0)%nat))
  /\ (forall events w,
        cacheRef w <> [] -> isLoading w = false ->
        Forall (fun e => later_operation e && negb (delivers_empty e) = true)
               events ->
        isLoading (run options events w) = false).
Proof.
  split; [reflexivity |]. split; [| split; [| split]].
  - intros events Hall.
    apply (run_preserves options
             (fun w => isLoading w = true /\ cacheRef w = [])
             (fun e => negb (is_Settle e))); [| assumption | now split].
    intros e w He [Hl Hc]. destruct e as [| | |c o|]; try discriminate.
    + unfold step. rewrite step_call.
      destruct (enabled options); auto.
      unfold after_call. rewrite Hc. simpl. auto.
    + unfold step. rewrite step_call.
      destruct (pollTimer w), (enabled options); auto.
      unfold after_call. rewrite Hc. simpl. auto.
    + unfold step, refetch. rewrite step_call.
      destruct (enabled options); auto.
      unfold after_call. rewrite Hc. simpl. auto.
    + pose proof (step_EffectCleanup options w) as H. split.
      * destruct H as (_ & _ & -> & _). exact Hl.
      * destruct H as (_ & _ & _ & _ & _ & -> & _). exact Hc.
  - intros o w Hl. unfold exec. rewrite settle_verdict. cbn [snd].
    destruct (verdict o) as [l|err]; [reflexivity |].
    destruct (is_AbortError err); [exact Hl |].
    simpl. rewrite Hl. now destruct (0 <? _)%nat.
  - intros w. rewrite step_call. destruct (enabled options).
    + unfold after_call. destruct (cacheRef w) as [|d rest]; simpl.
      * now rewrite orb_true_r.
      * now rewrite orb_false_r.
    + simpl. now rewrite orb_false_r.
  - intros events w Hc Hl Hall.
    apply (run_preserves options
             (fun w => isLoading w = false /\ cacheRef w <> [])
             (fun e => later_operation e && negb (delivers_empty e)));
      [| assumption | now split].
    clear. intros e w He [Hl Hc].
    apply andb_true_iff in He as [Hop Hne].
    assert (Hcall : isLoading (exec (fetchDevices_call options false) w) = false
                    /\ cacheRef (exec (fetchDevices_call options false) w) <> []).
    { rewrite step_call. destruct (enabled options); [| now split].
      unfold after_call. destruct (cacheRef w); [now elim Hc |]. simpl.
      split; [exact Hl | discriminate]. }
    destruct e as [| | |c o|]; try discriminate.
    + unfold step. destruct (pollTimer w); [exact Hcall | now split].
    + exact Hcall.
    + rewrite step_Settle. destruct (mem c (inflight w)); [| now split].
      cbv zeta. unfold delivers_empty in Hne.
      destruct (verdict o) as [l|err].
      * split; [reflexivity |].
        destruct (after_success_cases l
                    (set_inflight (remove_id c (inflight w)) w))
          as [(_ & _ & _ & H) | (_ & _ & _ & H)]; rewrite H.
        -- now destruct l.
        -- exact Hc.
      * destruct (is_AbortError err); [now split |].
        simpl. split; [| exact Hc].
        destruct (cacheRef w); [now elim Hc | reflexivity].
Qed.

Lemma isLoading_not_reasserted_with_snapshot_witness :
  isLoading (run default_options
               [Tick; Settle 1 (FetchRejected NetworkError); Refetch;
                Settle 2 (ok_with [dev_A'])]
               (run default_options [EffectRun; Settle 0 (ok_with [dev_A])]
                  initial_world))
  = false.
Proof.
  apply (proj2 (proj2 (proj2 (proj2
           (isLoading_not_reasserted_with_snapshot default_options))))).
  - vm_compute. discriminate.
  - reflexivity.
  - repeat constructor.
Defined.

(** C2 as stated fails: after the first fetch has resolved with an empty
    array, [isLoading] is false, and the next poll tick sets it to true
    again; and a first fetch that fails leaves it true. *)
Lemma isLoading_reasserted_on_empty_cache :
  let w1 := run default_options [EffectRun; Settle 0 (ok_with [])]
              initial_world in
  isLoading w1 = false
  /\ isLoading (step default_options Tick w1) = true
  /\ isLoading (run default_options
                  [EffectRun; Settle 0 (FetchRejected NetworkError)]
                  initial_world) = true.
Proof. vm_compute. repeat split. Qed.

(** ** Overlapping fetches *)

Lemma mem_In (c : nat) (l : list nat) : mem c l = true <-> In c l.
Proof.
  unfold mem. rewrite existsb_exists. split.
  - intros (x & Hx & E). apply Nat.eqb_eq in E. now subst.
  - intros H. exists c. split; [assumption | apply Nat.eqb_refl].
Qed.

Lemma remove_id_In (c x : nat) (l : list nat) :
  In x (remove_id c l) -> In x l.
Proof. unfold remove_id. rewrite filter_In. tauto. Qed.

Lemma abort_outcome_verdict (o : FetchOutcome) :
  abort_outcome o = true ->
  exists err, verdict o = Fails err /\ is_AbortError err = true.
Proof.
  destruct o as [t|r]; simpl.
  - intros H. now exists t.
  - destruct (ok r); [| discriminate]. simpl.
    destruct (body r) as [l|t]; [discriminate |].
    intros H. now exists t.
Qed.

Lemma after_call_aborts (b : bool) (w : World) :
  superseded_are_aborted w -> superseded_are_aborted (after_call b w).
Proof.
  intros (Hfl & Href & Hab). unfold superseded_are_aborted, after_call.
  cbn [inflight nextController abortControllerRef aborted].
  split; [| split].
  - intros c [<- | Hc]; [lia |]. apply Hfl in Hc. lia.
  - intros c H. injection H as <-. lia.
  - intros c [<- | Hc] Hne; [now elim Hne |].
    destruct (abortControllerRef w) as [c0|] eqn:E.
    + destruct (Nat.eq_dec c0 c) as [-> | Hd]; [now left |].
      right. apply Hab; [assumption |]. intros H. injection H as H. now elim Hd.
    + apply Hab; [assumption | discriminate].
Qed.

Lemma step_keeps_superseded_aborted (options : UseNetworkDevicesOptions)
      (e : Event) (w : World) :
  superseded_are_aborted w -> superseded_are_aborted (step options e w).
Proof.
  intros Hw. destruct e as [| | |c o|].
  - unfold step. rewrite step_call.
    destruct (enabled options); [| exact Hw].
    apply (after_call_aborts true) in Hw. exact Hw.
  - unfold step. rewrite step_call.
    destruct (pollTimer w), (enabled options); try exact Hw.
    now apply after_call_aborts.
  - unfold step, refetch. rewrite step_call.
    destruct (enabled options); [| exact Hw]. now apply after_call_aborts.
  - rewrite step_Settle. destruct (mem c (inflight w)); [| exact Hw].
    destruct Hw as (Hfl & Href & Hab).
    assert (H0 : superseded_are_aborted
                   (set_inflight (remove_id c (inflight w)) w)).
    { split; [| split]; cbn [set_inflight inflight nextController
                               abortControllerRef aborted].
      - intros x Hx. apply Hfl. now apply remove_id_In in Hx.
      - exact Href.
      - intros x Hx. apply Hab. now apply remove_id_In in Hx. }
    cbv zeta. destruct (verdict o) as [l|err].
    + exact H0.
    + destruct (is_AbortError err); exact H0.
  - destruct Hw as (Hfl & Href & Hab).
    destruct (step_EffectCleanup options w)
      as (_ & _ & _ & _ & _ & _ & Er & En & Ef & Ea).
    unfold superseded_are_aborted. rewrite Er, En, Ef, Ea.
    split; [exact Hfl |]. split; [exact Href |].
    intros x Hx Hne. specialize (Hab x Hx Hne).
    destruct (abortControllerRef w); [now right | exact Hab].
Qed.

Lemma reachable_superseded_aborted (options : UseNetworkDevicesOptions)
      (w : World) :
  reachable options w -> superseded_are_aborted w.
Proof.
  revert w. apply (reachable_ind options superseded_are_aborted).
  - split; [| split]; simpl; intros c H; try contradiction; discriminate.
  - intros e w. apply step_keeps_superseded_aborted.
Qed.

(** C3, amended.  Issuing a new fetch aborts the controller of the
    previous one and installs a new one.  When the transport honours the
    signal, that is when a request whose controller was aborted settles
    to nothing but an [AbortError], a request that settles after a newer
    one was issued changes neither [devices], [isLoading], [isFetching],
    [error] nor the cache: all that changes is that it is no longer in
    flight.  So a completion that changes the state is that of the request
    issued last. *)
Theorem superseded_fetch_is_discarded (options : UseNetworkDevicesOptions)
        (w : World) :
  reachable options w ->
  (forall b c0,
     enabled options = true -> abortControllerRef w = Some c0 ->
     let w' := exec (fetchDevices_call options b) w in
     In c0 (aborted w')
     /\ abortControllerRef w' = Some (nextController w)
     /\ nextController w <> c0)
  /\ (forall c o,
        In c (inflight w) -> abortControllerRef w <> Some c ->
        honours_abort w (Settle c o) = true ->
        In c (aborted w)
        /\ step options (Settle c o) w
           = set_inflight (remove_id c (inflight w)) w
        /\ cache_state (step options (Settle c o) w) = cache_state w
        /\ cacheRef (step options (Settle c o) w) = cacheRef w)
  /\ (forall c o,
        honours_abort w (Settle c o) = true ->
        cache_state (step options (Settle c o) w) <> cache_state w ->
        abortControllerRef w = Some c).
Proof.
  intros Hr. apply reachable_superseded_aborted in Hr as (Hfl & Href & Hab).
  assert (Hold : forall c o,
            In c (inflight w) -> abortControllerRef w <> Some c ->
            honours_abort w (Settle c o) = true ->
            In c (aborted w)
            /\ step options (Settle c o) w
               = set_inflight (remove_id c (inflight w)) w).
  { intros c o Hin Hne Hhon. specialize (Hab c Hin Hne).
    split; [exact Hab |].
    rewrite step_Settle. apply mem_In in Hin. rewrite Hin. cbv zeta.
    unfold honours_abort in Hhon. apply mem_In in Hab. rewrite Hab in Hhon.
    apply abort_outcome_verdict in Hhon as (err & -> & ->). reflexivity. }
  split; [| split].
  - intros b c0 Hen Hc0. rewrite step_call, Hen. cbv zeta.
    unfold after_call. cbn [aborted abortControllerRef]. rewrite Hc0.
    split; [now left |]. split; [reflexivity |].
    apply Href in Hc0. lia.
  - intros c o Hin Hne Hhon.
    destruct (Hold c o Hin Hne Hhon) as [Ha Hstep].
    split; [exact Ha |]. split; [exact Hstep |]. rewrite Hstep.
    split; reflexivity.
  - intros c o Hhon Hch.
    destruct (mem c (inflight w)) eqn:Hin.
    + apply mem_In in Hin.
      destruct (abortControllerRef w) as [c1|] eqn:Eref.
      * destruct (Nat.eq_dec c1 c) as [-> | Hd]; [reflexivity |].
        exfalso. apply Hch.
        destruct (Hold c o Hin) as [_ Hstep]; [congruence | assumption |].
        now rewrite Hstep.
      * exfalso. apply Hch.
        destruct (Hold c o Hin) as [_ Hstep]; [discriminate | assumption |].
        now rewrite Hstep.
    + exfalso. apply Hch. rewrite step_Settle, Hin. reflexivity.
Qed.

Lemma superseded_fetch_is_discarded_witness :
  let w := run default_options [EffectRun; Refetch] initial_world in
  In 0 (aborted w)
  /\ cache_state (step default_options (Settle 0 (FetchRejected AbortError)) w)
     = cache_state w.
Proof.
  destruct (proj1 (proj2 (superseded_fetch_is_discarded default_options
                     (run default_options [EffectRun; Refetch] initial_world)
                     (ex_intro _ [EffectRun; Refetch] eq_refl)))
              0 (FetchRejected AbortError))
    as (H1 & _ & H2 & _).
  - vm_compute. auto.
  - vm_compute. discriminate.
  - reflexivity.
  - exact (conj H1 H2).
Defined.

(** C3 as stated fails: the hook compares nothing when a request
    settles.  If the transport delivers the response of request 0 although
    its controller was aborted when request 1 was issued, the result of
    the earlier fetch overwrites [devices], [isLoading] and the cache while
    the later one is still in flight. *)
Lemma stale_response_overwrites_state :
  let w := run default_options [EffectRun; Refetch] initial_world in
  let w' := step default_options (Settle 0 (ok_with [dev_A])) w in
  inflight w = [1; 0] /\ aborted w = [0] /\ abortControllerRef w = Some 1
  /\ cache_state w = ([], 0, true, false, None)
  /\ inflight w' = [1]
  /\ cache_state w' = ([dev_A], 1, false, false, None).
Proof. vm_compute. repeat split. Qed.

(** ** The structural comparison *)

(** C4, amended.  A successful fetch compares the serialisations.  They
    are equal exactly when the new list is the current one, property for
    property in the same order; then [devices] keeps its value and its
    identity.  Otherwise, and so also when the lists differ only in the
    order of the properties of a device, [devices] is replaced by the new
    list. *)
Theorem devices_replaced_iff_serialisation_differs
        (options : UseNetworkDevicesOptions) (w : World) (r : Response)
        (l : list NetworkDevice) :
  reachable options w ->
  ok r = true -> body r = JsonValue l ->
  let w' := exec (fetchDevices_settle (FetchResponded r)) w in
  (JSON_stringify l = JSON_stringify (devices w) <-> l = devices w)
  /\ (l = devices w ->
      devices w' = devices w /\ devicesVersion w' = devicesVersion w)
  /\ (l <> devices w ->
      devices w' = l /\ devicesVersion w' = S (devicesVersion w)).
Proof.
  intros Hr Hok Hb. cbv zeta.
  apply devices_cache_invariant in Hr.
  unfold exec. rewrite settle_verdict, (verdict_success r l) by assumption.
  cbn [snd]. rewrite Hr. split; [| split].
  - split; [apply JSON_stringify_inj | now intros ->].
  - intros E.
    destruct (after_success_cases l w) as [(Hne & _) | (_ & Hd & Hv & _)];
      [now elim Hne | now rewrite Hd, Hv, Hr].
  - intros Hne.
    destruct (after_success_cases l w) as [(_ & Hd & Hv & _) | (E & _)];
      [now split | now elim Hne].
Qed.

Lemma devices_replaced_iff_serialisation_differs_witness :
  let w := run default_options [EffectRun; Settle 0 (ok_with [dev_A]); Tick]
             initial_world in
  let w' := exec (fetchDevices_settle (ok_with [dev_A])) w in
  devices w' = devices w /\ devicesVersion w' = devicesVersion w.
Proof.
  apply (proj1 (proj2 (devices_replaced_iff_serialisation_differs
                         default_options
                         (run default_options
                            [EffectRun; Settle 0 (ok_with [dev_A]); Tick]
                            initial_world)
                         {| status := 200; body := JsonValue [dev_A] |} [dev_A]
                         (ex_intro _ [EffectRun; Settle 0 (ok_with [dev_A]); Tick]
                            eq_refl)
                         eq_refl eq_refl))).
  reflexivity.
Defined.

(** C4 as stated fails: a snapshot deeply equal to the current one, with
    the properties of a device in another order, replaces [devices]. *)
Lemma deeply_equal_snapshot_replaces_devices :
  let w := run default_options [EffectRun; Settle 0 (ok_with [dev_A]); Tick]
             initial_world in
  let w' := step default_options (Settle 1 (ok_with [dev_A'])) w in
  conforms_NetworkDevice dev_A = true /\ conforms_NetworkDevice dev_A' = true
  /\ devices w = [dev_A]
  /\ deep_equal [dev_A'] (devices w) = true
  /\ devices w' = [dev_A'] /\ devices w' <> devices w
  /\ devicesVersion w = 1 /\ devicesVersion w' = 2.
Proof. vm_compute. repeat split. discriminate. Qed.

(** * The hook beyond a single fetch cycle *)

Lemma honouring_preserves (options : UseNetworkDevicesOptions)
      (P : World -> Prop) (allowed : Event -> bool) :
  (forall e w,
     allowed e = true -> honours_abort w e = true -> P w ->
     P (step options e w)) ->
  forall events w,
    Forall (fun e => allowed e = true) events ->
    honouring options events w -> P w ->
    P (run options events w).
Proof.
  intros Hstep events. induction events as [|e events IH]; intros w Hall Hhon Hw.
  - exact Hw.
  - rewrite run_cons. inversion Hall; subst. destruct Hhon as [He Hrest].
    apply IH; [assumption | assumption |]. now apply Hstep.
Qed.

Lemma honoured_abort (w : World) (c : nat) (o : FetchOutcome) :
  honours_abort w (Settle c o) = true -> mem c (aborted w) = true ->
  exists err, verdict o = Fails err /\ is_AbortError err = true.
Proof.
  unfold honours_abort. intros H Hm. rewrite Hm in H.
  now apply abort_outcome_verdict.
Qed.

(** The three kinds of step, as far as the flags and the cache go. *)
Lemma step_cases (options : UseNetworkDevicesOptions) (e : Event) (w : World) :
  (exists b,
     step options e w = after_call b w
     \/ step options e w = set_pollTimer true (after_call b w))
  \/ (exists c o,
        e = Settle c o /\ mem c (inflight w) = true
        /\ step options e w
           = match verdict o with
             | Succeeds l =>
                 after_success l (set_inflight (remove_id c (inflight w)) w)
             | Fails err =>
                 if is_AbortError err
                 then set_inflight (remove_id c (inflight w)) w
                 else after_failure err
                        (set_inflight (remove_id c (inflight w)) w)
             end)
  \/ (devices (step options e w) = devices w
      /\ devicesVersion (step options e w) = devicesVersion w
      /\ isLoading (step options e w) = isLoading w
      /\ isFetching (step options e w) = isFetching w
      /\ error (step options e w) = error w
      /\ cacheRef (step options e w) = cacheRef w
      /\ inflight (step options e w) = inflight w
      /\ (forall c, In c (aborted w) -> In c (aborted (step options e w)))).
Proof.
  destruct e as [| | |c o|].
  - unfold step. rewrite step_call. destruct (enabled options); cbn [negb].
    + left. exists true. now right.
    + right. right. repeat split; auto.
  - unfold step. rewrite step_call.
    destruct (pollTimer w); [destruct (enabled options) |].
    + left. exists false. now left.
    + right. right. repeat split; auto.
    + right. right. repeat split; auto.
  - unfold step, refetch. rewrite step_call. destruct (enabled options).
    + left. exists false. now left.
    + right. right. repeat split; auto.
  - rewrite step_Settle. destruct (mem c (inflight w)) eqn:Hin.
    + right. left. exists c, o.
      split; [reflexivity |]. split; [exact Hin | reflexivity].
    + right. right. repeat split; auto.
  - right. right.
    destruct (step_EffectCleanup options w)
      as (H1 & H2 & H3 & H4 & H5 & H6 & _ & _ & H9 & H10).
    repeat split; try assumption.
    intros c Hc. rewrite H10. destruct (abortControllerRef w); [now right | exact Hc].
Qed.

(** X1.  As long as no fetch has succeeded, the component shows the
    loading screen, whatever failures have come in between: a failure
    with an empty cache leaves [isLoading] true, so the error screen does
    not replace the spinner. *)
Theorem spinner_until_first_success (options : UseNetworkDevicesOptions)
        (events : list Event) :
  Forall (fun e => negb (succeeds e) = true) events ->
  let w := run options events initial_world in
  isLoading w = true /\ devices w = []
  /\ NetworkDeviceList w = LoadingState.
Proof.
  intros Hall. cbv zeta.
  assert (H : isLoading (run options events initial_world) = true
              /\ devices (run options events initial_world) = []
              /\ cacheRef (run options events initial_world) = []).
  { apply (run_preserves options
             (fun w => isLoading w = true /\ devices w = [] /\ cacheRef w = [])
             (fun e => negb (succeeds e))); [| assumption | now repeat split].
    clear. intros e w He (Hl & Hd & Hc).
    destruct (step_cases options e w)
      as [[b [-> | ->]] | [(c & o & -> & Hin & ->) | H]].
    - unfold after_call. rewrite Hc. simpl. auto.
    - unfold after_call. rewrite Hc. simpl. auto.
    - unfold succeeds in He. destruct (verdict o) as [l|err]; [discriminate |].
      destruct (is_AbortError err); simpl; [auto |].
      rewrite Hc. simpl. auto.
    - destruct H as (H1 & _ & H3 & _ & _ & H6 & _). rewrite H1, H3, H6. auto. }
  destruct H as (Hl & Hd & _). repeat split; try assumption.
  unfold NetworkDeviceList. rewrite Hl, Hd. reflexivity.
Qed.

Lemma spinner_until_first_success_witness :
  NetworkDeviceList
    (run default_options
       [EffectRun; Settle 0 (FetchRejected NetworkError); Tick;
        Settle 1 (FetchResponded {| status := 500; body := JsonValue [dev_A] |})]
       initial_world)
  = LoadingState.
Proof.
  apply (spinner_until_first_success default_options).
  repeat constructor.
Defined.

(** X2.  [isFetching] is true only while the list is non-empty: the
    refresh indicator is never shown over an empty list, and the refresh
    button is never disabled there. *)
Theorem fetching_only_with_data (options : UseNetworkDevicesOptions)
        (events : list Event) :
  let w := run options events initial_world in
  isFetching w = true -> devices w <> [].
Proof.
  cbv zeta.
  rewrite (devices_cache_invariant options) by now exists events.
  apply (run_preserves options
           (fun w => isFetching w = true -> cacheRef w <> [])
           (fun _ => true)); [| now apply Forall_forall | discriminate].
  clear. intros e w _ IH.
  destruct (step_cases options e w)
    as [[b [-> | ->]] | [(c & o & -> & Hin & ->) | H]].
  - unfold after_call. simpl.
    destruct (cacheRef w); simpl; [exact IH | discriminate].
  - unfold after_call. simpl.
    destruct (cacheRef w); simpl; [exact IH | discriminate].
  - destruct (verdict o) as [l|err].
    + discriminate.
    + destruct (is_AbortError err); [exact IH | discriminate].
  - destruct H as (_ & _ & _ & H4 & _ & H6 & _). now rewrite H4, H6.
Qed.

Lemma fetching_only_with_data_witness :
  devices (run default_options [EffectRun; Settle 0 (ok_with [dev_A]); Tick]
             initial_world) <> [].
Proof.
  apply (fetching_only_with_data default_options
           [EffectRun; Settle 0 (ok_with [dev_A]); Tick]).
  reflexivity.
Defined.

Lemma NoDup_all_equal {A : Type} (l : list A) :
  NoDup l -> (forall x y, In x l -> In y l -> x = y) -> List.length l <= 1.
Proof.
  intros Hnd Heq. destruct l as [|a [|b rest]]; simpl; try lia.
  exfalso. inversion Hnd as [|? ? Hnotin _]; subst. apply Hnotin.
  rewrite (Heq a b); simpl; auto.
Qed.

Lemma reachable_inflight_NoDup (options : UseNetworkDevicesOptions) (w : World) :
  reachable options w -> NoDup (inflight w).
Proof.
  intros Hr.
  enough (H : superseded_are_aborted w /\ NoDup (inflight w)) by tauto.
  revert w Hr.
  apply (reachable_ind options
           (fun w => superseded_are_aborted w /\ NoDup (inflight w))).
  - split; [| constructor].
    split; [| split]; simpl; intros c H; try contradiction; discriminate.
  - intros e w [Hs Hnd]. split; [now apply step_keeps_superseded_aborted |].
    assert (Hcall : forall b, NoDup (inflight (after_call b w))).
    { intros b. unfold after_call. cbn [inflight]. constructor; [| exact Hnd].
      intros Hin. destruct Hs as (Hfl & _). apply Hfl in Hin. lia. }
    destruct (step_cases options e w)
      as [[b [-> | ->]] | [(c & o & -> & Hin & ->) | H]].
    + apply Hcall.
    + apply Hcall.
    + assert (H0 : NoDup (remove_id c (inflight w)))
        by (unfold remove_id; now apply NoDup_filter).
      destruct (verdict o) as [l|err]; [exact H0 |].
      destruct (is_AbortError err); exact H0.
    + destruct H as (_ & _ & _ & _ & _ & _ & -> & _). exact Hnd.
Qed.

(** X3.  At most one request is in flight without having been aborted:
    each call aborts the request of the call before. *)
Theorem at_most_one_live_request (options : UseNetworkDevicesOptions)
        (events : list Event) :
  let w := run options events initial_world in
  NoDup (inflight w)
  /\ List.length (filter (live w) (inflight w)) <= 1
  /\ (forall c, In c (inflight w) -> live w c = true ->
                abortControllerRef w = Some c).
Proof.
  cbv zeta. set (w := run options events initial_world).
  assert (Hr : reachable options w) by now exists events.
  pose proof (reachable_inflight_NoDup options w Hr) as Hnd.
  destruct (reachable_superseded_aborted options w Hr) as (_ & _ & Hab).
  assert (Hcur : forall c, In c (inflight w) -> live w c = true ->
                           abortControllerRef w = Some c).
  { intros c Hin Hlive.
    destruct (abortControllerRef w) as [c0|] eqn:E.
    - destruct (Nat.eq_dec c0 c) as [-> | Hne]; [reflexivity |].
      exfalso. unfold live in Hlive. apply negb_true_iff in Hlive.
      assert (Hm : mem c (aborted w) = true).
      { apply mem_In, Hab; [assumption | congruence]. }
      congruence.
    - exfalso. unfold live in Hlive. apply negb_true_iff in Hlive.
      assert (Hm : mem c (aborted w) = true).
      { apply mem_In, Hab; [assumption | congruence]. }
      congruence. }
  split; [exact Hnd |]. split; [| exact Hcur].
  apply NoDup_all_equal; [now apply NoDup_filter |].
  intros x y Hx Hy. apply filter_In in Hx as [Hx Hlx], Hy as [Hy Hly].
  pose proof (Hcur x Hx Hlx) as Ex. pose proof (Hcur y Hy Hly) as Ey.
  congruence.
Qed.

Lemma at_most_one_live_request_witness :
  let w := run default_options [EffectRun; Refetch; Tick] initial_world in
  abortControllerRef w = Some 2.
Proof.
  apply (proj2 (proj2 (at_most_one_live_request default_options
                         [EffectRun; Refetch; Tick])) 2).
  - vm_compute. auto.
  - reflexivity.
Defined.

(** X4.  Over a transport that honours the signal, the hook never
    reports an error over an empty list with [isLoading] false; so the
    component never shows its error screen: a failure before any data
    keeps the spinner, a failure with data keeps the list. *)
Theorem error_screen_never_shown (options : UseNetworkDevicesOptions)
        (events : list Event) :
  honouring options events initial_world ->
  let w := run options events initial_world in
  (error w <> None -> devices w = [] -> isLoading w = true)
  /\ (forall detail, NetworkDeviceList w <> ErrorState detail).
Proof.
  intros Hhon. cbv zeta.
  pose proof (devices_cache_invariant options
                (run options events initial_world)
                (ex_intro _ events eq_refl)) as Hdc.
  assert (H : superseded_are_aborted (run options events initial_world)
              /\ (cacheRef (run options events initial_world) = [] ->
                  (exists c, In c (inflight (run options events initial_world))
                             /\ mem c (aborted (run options events initial_world))
                                = false) ->
                  isLoading (run options events initial_world) = true)
              /\ (cacheRef (run options events initial_world) = [] ->
                  error (run options events initial_world) <> None ->
                  isLoading (run options events initial_world) = true)).
  { apply (honouring_preserves options
             (fun w => superseded_are_aborted w
                       /\ (cacheRef w = [] ->
                           (exists c, In c (inflight w)
                                      /\ mem c (aborted w) = false) ->
                           isLoading w = true)
                       /\ (cacheRef w = [] -> error w <> None ->
                           isLoading w = true))
             (fun _ => true)); [| now apply Forall_forall | assumption |].
    - clear. intros e w _ Hhon (Hs & Hlive & Herr).
      split; [now apply step_keeps_superseded_aborted |].
      assert (Hcall : forall b, cacheRef w = [] -> isLoading (after_call b w) = true).
      { intros b Hc. unfold after_call. rewrite Hc. reflexivity. }
      destruct (step_cases options e w)
        as [[b [-> | ->]] | [(c & o & -> & Hin & ->) | H]].
      + split; intros Hc _; now apply (Hcall b).
      + split; intros Hc _; now apply (Hcall b).
      + destruct (mem c (aborted w)) eqn:Hm.
        * destruct (honoured_abort w c o Hhon Hm) as (err & -> & ->).
          split.
          -- intros Hc (c' & Hc' & Hm'). apply Hlive; [exact Hc |].
             exists c'. split; [now apply remove_id_In in Hc' | exact Hm'].
          -- exact Herr.
        * destruct (verdict o) as [l|err].
          -- split.
             ++ intros _ (c' & Hc' & Hm'). exfalso.
                cbn [inflight after_success set_inflight] in Hc'.
                cbn [aborted after_success set_inflight] in Hm'.
                destruct Hs as (_ & _ & Hab).
                unfold remove_id in Hc'. apply filter_In in Hc' as [Hc' Hne].
                apply negb_true_iff, Nat.eqb_neq in Hne.
                apply mem_In in Hin.
                assert (E1 : abortControllerRef w = Some c).
                { destruct (abortControllerRef w) as [c0|] eqn:E.
                  - destruct (Nat.eq_dec c0 c) as [-> | Hd]; [reflexivity |].
                    assert (In c (aborted w))
                      by (apply Hab; [assumption | congruence]).
                    apply mem_In in H. congruence.
                  - assert (In c (aborted w))
                      by (apply Hab; [assumption | discriminate]).
                    apply mem_In in H. congruence. }
                assert (In c' (aborted w))
                  by (apply Hab; [assumption | congruence]).
                apply mem_In in H. congruence.
             ++ intros _ Hne. now elim Hne.
          -- destruct (is_AbortError err).
             ++ split; [| exact Herr].
                intros Hc (c' & Hc' & Hm'). apply Hlive; [exact Hc |].
                exists c'. split; [now apply remove_id_In in Hc' | exact Hm'].
             ++ assert (Hl : cacheRef w = [] -> isLoading w = true).
                { intros Hc. apply Hlive; [exact Hc |]. exists c.
                  split; [now apply mem_In | exact Hm]. }
                split; intros Hc _; cbn [cacheRef after_failure set_inflight] in Hc;
                  cbn [isLoading after_failure set_inflight cacheRef];
                  rewrite Hc; simpl; now apply Hl.
      + destruct H as (_ & _ & H3 & _ & H5 & H6 & H7 & H8).
        rewrite H3, H5, H6, H7. split; [| exact Herr].
        intros Hc (c & Hc' & Hm). apply Hlive; [exact Hc |].
        exists c. split; [exact Hc' |].
        destruct (mem c (aborted w)) eqn:Hm0; [| reflexivity].
        apply mem_In, H8, mem_In in Hm0. congruence.
    - split; [| split].
      + split; [| split]; simpl; intros c H; try contradiction; discriminate.
      + intros _ (c & Hc & _). contradiction.
      + intros _ Hne. now elim Hne. }
  destruct H as (_ & _ & Herr). rewrite Hdc.
  assert (Hstate : error (run options events initial_world) <> None ->
                   cacheRef (run options events initial_world) = [] ->
                   isLoading (run options events initial_world) = true)
    by (intros He Hc; now apply Herr).
  split; [exact Hstate |].
  intros detail. unfold NetworkDeviceList. rewrite Hdc.
  destruct (isLoading (run options events initial_world)) eqn:Hl;
    destruct (cacheRef (run options events initial_world)) eqn:Hc; simpl;
    destruct (error (run options events initial_world)) eqn:He;
    try discriminate.
  exfalso. assert (false = true) by (apply Hstate; [discriminate | reflexivity]).
  discriminate.
Qed.

Lemma error_screen_never_shown_witness :
  isLoading (run default_options
               [EffectRun; Settle 0 (FetchRejected NetworkError)] initial_world)
  = true.
Proof.
  apply (proj1 (error_screen_never_shown default_options
                  [EffectRun; Settle 0 (FetchRejected NetworkError)]
                  (conj eq_refl (conj eq_refl I)))).
  - vm_compute. discriminate.
  - reflexivity.
Defined.

Lemma list_view_with_data (w : World) :
  devices w <> [] ->
  NetworkDeviceList w
  = DevicesView (isFetching w) (List.length (devices w)) (isFetching w)
      (match error w with Some _ => true | None => false end)
      (DeviceGrid (map card_of (devices w))).
Proof.
  intros Hd. unfold NetworkDeviceList.
  destruct (devices w) as [|d rest]; [now elim Hd |]. simpl.
  rewrite andb_false_r, andb_true_r. now destruct (error w).
Qed.

Lemma devices_stay_nonempty (options : UseNetworkDevicesOptions)
      (events : list Event) (w : World) :
  devices w <> [] ->
  Forall (fun e => negb (delivers_empty e) = true) events ->
  devices (run options events w) <> [].
Proof.
  intros Hw Hall.
  apply (run_preserves options (fun w => devices w <> [])
           (fun e => negb (delivers_empty e))); [| assumption | assumption].
  intros e w' He Hw'.
  destruct (step_devices_cache options e w')
    as [(Hd & _ & _) | (c & r & l & -> & Hok & Hb & _ & Hd & _ & _)].
  - now rewrite Hd.
  - rewrite Hd. intros ->.
    unfold delivers_empty in He. rewrite (verdict_success r []) in He by assumption.
    discriminate.
Qed.

(** X5.  Once a non-empty list is displayed, the component shows the
    list, a card per device in the order of [devices], after every
    sequence of effect runs, ticks, refetches, completions and cleanups in
    which no successful fetch returns an empty array: neither a new
    loading phase nor an error takes the cards away. *)
Theorem list_stays_on_screen (options : UseNetworkDevicesOptions)
        (events : list Event) (w : World) :
  devices w <> [] ->
  Forall (fun e => negb (delivers_empty e) = true) events ->
  let w' := run options events w in
  devices w' <> []
  /\ NetworkDeviceList w'
     = DevicesView (isFetching w') (List.length (devices w')) (isFetching w')
         (match error w' with Some _ => true | None => false end)
         (DeviceGrid (map card_of (devices w'))).
Proof.
  intros Hw Hall. cbv zeta.
  pose proof (devices_stay_nonempty options events w Hw Hall) as H.
  split; [exact H | now apply list_view_with_data].
Qed.

Lemma list_stays_on_screen_witness :
  let w' := run default_options
              [EffectCleanup; EffectRun; Settle 1 (FetchRejected NetworkError)]
              (run default_options [EffectRun; Settle 0 (ok_with [dev_A])]
                 initial_world) in
  devices w' <> []
  /\ NetworkDeviceList w'
     = DevicesView (isFetching w') (List.length (devices w')) (isFetching w')
         (match error w' with Some _ => true | None => false end)
         (DeviceGrid (map card_of (devices w'))).
Proof.
  apply (list_stays_on_screen default_options
           [EffectCleanup; EffectRun; Settle 1 (FetchRejected NetworkError)]
           (run default_options [EffectRun; Settle 0 (ok_with [dev_A])]
              initial_world)).
  - vm_compute. discriminate.
  - repeat constructor.
Defined.

(** X6.  When a refresh fails, for a reason other than a cancellation,
    while a list is displayed, the component goes on showing the same
    cards, with the warning banner, without the refresh indicator, and
    with the refresh button enabled. *)
Theorem failed_refresh_keeps_cards (options : UseNetworkDevicesOptions)
        (events : list Event) (c : nat) (o : FetchOutcome) (err : Thrown) :
  let w := run options events initial_world in
  devices w <> [] ->
  In c (inflight w) ->
  verdict o = Fails err -> is_AbortError err = false ->
  NetworkDeviceList (step options (Settle c o) w)
  = DevicesView false (List.length (devices w)) false true
      (DeviceGrid (map card_of (devices w))).
Proof.
  cbv zeta. intros Hd Hin Hv Hna.
  rewrite step_Settle. apply mem_In in Hin. rewrite Hin. cbv zeta.
  rewrite Hv, Hna. rewrite list_view_with_data by exact Hd. reflexivity.
Qed.

Lemma failed_refresh_keeps_cards_witness :
  NetworkDeviceList
    (step default_options (Settle 1 (FetchRejected NetworkError))
       (run default_options [EffectRun; Settle 0 (ok_with [dev_A]); Tick]
          initial_world))
  = DevicesView false 1 false true (DeviceGrid [(Some "1", dev_A)]).
Proof.
  apply (failed_refresh_keeps_cards default_options
           [EffectRun; Settle 0 (ok_with [dev_A]); Tick] 1
           (FetchRejected NetworkError) NetworkError).
  - vm_compute. discriminate.
  - vm_compute. auto.
  - reflexivity.
  - reflexivity.
Defined.

(** X7.  The effect's cleanup stops the timer and leaves every request
    in flight aborted, the current one included.  Over a transport that
    honours the signal, no tick and no completion that comes after it
    changes [devices], [isLoading], [isFetching], [error] or the cache. *)
Theorem cleanup_silences_the_hook (options : UseNetworkDevicesOptions)
        (w : World) (events : list Event) :
  reachable options w ->
  let w' := step options EffectCleanup w in
  pollTimer w' = false
  /\ (forall c, In c (inflight w') -> In c (aborted w'))
  /\ (Forall (fun e => tick_or_settle e = true) events ->
      honouring options events w' ->
      cache_state (run options events w') = cache_state w'
      /\ cacheRef (run options events w') = cacheRef w').
Proof.
  intros Hr. cbv zeta.
  destruct (reachable_superseded_aborted options w Hr) as (_ & _ & Hab).
  assert (Ht : pollTimer (step options EffectCleanup w) = false).
  { destruct w as [d v l f e cache [c|] n ab fl t]; reflexivity. }
  assert (Hall : forall c, In c (inflight (step options EffectCleanup w)) ->
                           In c (aborted (step options EffectCleanup w))).
  { destruct (step_EffectCleanup options w)
      as (_ & _ & _ & _ & _ & _ & _ & _ & Ef & Ea).
    rewrite Ef, Ea. intros c Hc.
    destruct (abortControllerRef w) as [c0|] eqn:E.
    - destruct (Nat.eq_dec c0 c) as [-> | Hne]; [now left |].
      right. apply Hab; [assumption | congruence].
    - apply Hab; [assumption | congruence]. }
  split; [exact Ht |]. split; [exact Hall |].
  intros Hev Hhon.
  set (w' := step options EffectCleanup w) in *.
  enough (H : pollTimer (run options events w') = false
              /\ (forall c, In c (inflight (run options events w')) ->
                            In c (aborted (run options events w')))
              /\ cache_state (run options events w') = cache_state w'
              /\ cacheRef (run options events w') = cacheRef w') by tauto.
  apply (honouring_preserves options
           (fun w1 => pollTimer w1 = false
                      /\ (forall c, In c (inflight w1) -> In c (aborted w1))
                      /\ cache_state w1 = cache_state w'
                      /\ cacheRef w1 = cacheRef w')
           tick_or_settle); [| assumption | assumption | now repeat split].
  clear. intros e w1 He Hhon (Ht & Hall & Hcs & Hc).
  destruct e as [| | |c o|]; try discriminate.
  - unfold step. rewrite Ht. now repeat split.
  - rewrite step_Settle. destruct (mem c (inflight w1)) eqn:Hin;
      [| now repeat split].
    cbv zeta. apply mem_In in Hin. pose proof (Hall c Hin) as Ha.
    apply mem_In in Ha.
    destruct (honoured_abort w1 c o Hhon Ha) as (err & -> & ->).
    split; [exact Ht |]. split; [| split; assumption].
    intros c' Hc'. cbn [inflight set_inflight] in Hc'. cbn [aborted set_inflight].
    apply Hall. now apply remove_id_In in Hc'.
Qed.

Lemma cleanup_silences_the_hook_witness :
  let w' := step default_options EffectCleanup
              (run default_options [EffectRun; Settle 0 (ok_with [dev_A]); Tick]
                 initial_world) in
  cache_state (run default_options [Tick; Settle 1 (FetchRejected AbortError)] w')
  = cache_state w'.
Proof.
  apply (proj2 (proj2 (cleanup_silences_the_hook default_options
           (run default_options [EffectRun; Settle 0 (ok_with [dev_A]); Tick]
              initial_world)
           [Tick; Settle 1 (FetchRejected AbortError)]
           (ex_intro _ [EffectRun; Settle 0 (ok_with [dev_A]); Tick] eq_refl)))).
  - repeat constructor.
  - vm_compute. auto.
Defined.

(** X8.  The identity of [devices] changes exactly when its value does:
    from a state the hook can reach, a step signals a new [devices] if and
    only if the list is a different one. *)
Theorem update_signalled_iff_value_changed
        (options : UseNetworkDevicesOptions) (events : list Event) (e : Event) :
  let w := run options events initial_world in
  (devicesVersion (step options e w) <> devicesVersion w
   <-> devices (step options e w) <> devices w)
  /\ devicesVersion w <= devicesVersion (step options e w).
Proof.
  cbv zeta. set (w := run options events initial_world).
  assert (Hdc : devices w = cacheRef w)
    by (apply (devices_cache_invariant options); now exists events).
  destruct (step_devices_cache options e w)
    as [(Hd & Hv & _) | (c & r & l & _ & _ & _ & Hne & Hd & Hv & _)].
  - rewrite Hd, Hv. split; [| lia]. split; intros H; now elim H.
  - rewrite Hd, Hv, Hdc. split; [| lia]. split; intros _; [exact Hne | lia].
Qed.

(** * The device list fed by server-sent events *)

Lemma strict_equals_eq (a b : option string) :
  strict_equals a b = true <-> a = b.
Proof.
  destruct a as [x|], b as [y|]; simpl; split; try discriminate; auto.
  - intros H. apply String.eqb_eq in H. now subst.
  - intros H. injection H as ->. apply String.eqb_refl.
Qed.

Lemma has_id_refl (d : NetworkDevice) : has_id (lookup_prop "id" d) d = true.
Proof. unfold has_id. now apply strict_equals_eq. Qed.

Lemma findIndex_from_range {A : Type} (p : A -> bool) (i : Z) (l : list A) :
  findIndex_from p i l = (-1)%Z
  \/ (i <= findIndex_from p i l < i + Z.of_nat (List.length l))%Z.
Proof.
  revert i. induction l as [|y rest IH]; intros i; simpl; [now left |].
  destruct (p y); [right; lia |].
  destruct (IH (i + 1)%Z) as [-> | H]; [now left | right; lia].
Qed.

Lemma findIndex_assign {A : Type} (p : A -> bool) (x : A) (i : Z) (l : list A) :
  (0 <= i)%Z ->
  (if (0 <=? findIndex_from p i l)%Z
   then assign (Z.to_nat (findIndex_from p i l - i)) x l
   else (l ++ [x])%list)
  = replace_first p x l.
Proof.
  revert i. induction l as [|y rest IH]; intros i Hi; simpl; [reflexivity |].
  destruct (p y).
  - replace (0 <=? i)%Z with true by (symmetry; now apply Z.leb_le).
    now rewrite Z.sub_diag.
  - rewrite <- (IH (i + 1)%Z) by lia.
    destruct (findIndex_from_range p (i + 1)%Z rest) as [-> | H].
    + reflexivity.
    + replace (0 <=? findIndex_from p (i + 1) rest)%Z with true
        by (symmetry; apply Z.leb_le; lia).
      replace (Z.to_nat (findIndex_from p (i + 1) rest - i))
        with (S (Z.to_nat (findIndex_from p (i + 1) rest - (i + 1)))) by lia.
      reflexivity.
Qed.

Lemma onmessage_update_replace_first (newDevice : NetworkDevice)
      (prev : list NetworkDevice) :
  onmessage_update newDevice prev
  = replace_first (has_id (lookup_prop "id" newDevice)) newDevice prev.
Proof.
  unfold onmessage_update, findIndex. cbv zeta.
  rewrite <- (findIndex_assign (has_id (lookup_prop "id" newDevice))
                newDevice 0%Z prev) by lia.
  now rewrite Z.sub_0_r.
Qed.

Lemma replace_first_ids (k : option string) (x : NetworkDevice)
      (l : list NetworkDevice) :
  lookup_prop "id" x = k ->
  map (lookup_prop "id") (replace_first (has_id k) x l)
  = if existsb (has_id k) l
    then map (lookup_prop "id") l
    else (map (lookup_prop "id") l ++ [k])%list.
Proof.
  intros Hx. induction l as [|y rest IH]; simpl; [now rewrite Hx |].
  destruct (has_id k y) eqn:Hy; simpl.
  - apply strict_equals_eq in Hy. now rewrite Hx, Hy.
  - rewrite IH. now destruct (existsb (has_id k) rest).
Qed.

(** X9.  A message keeps the devices in their places: when a device of
    the list has the id of the new one, the sequence of ids is unchanged;
    otherwise the new id is added at the end. *)
Theorem message_keeps_order (newDevice : NetworkDevice)
        (prev : list NetworkDevice) :
  map (lookup_prop "id") (onmessage_update newDevice prev)
  = if existsb (has_id (lookup_prop "id" newDevice)) prev
    then map (lookup_prop "id") prev
    else (map (lookup_prop "id") prev ++ [lookup_prop "id" newDevice])%list.
Proof.
  rewrite onmessage_update_replace_first. now apply replace_first_ids.
Qed.

Lemma existsb_has_id (k : option string) (l : list NetworkDevice) :
  existsb (has_id k) l = false -> ~ In k (map (lookup_prop "id") l).
Proof.
  induction l as [|y rest IH]; simpl; [tauto |].
  intros H. apply orb_false_iff in H as [Hy Hrest].
  intros [E | Hin]; [| now apply IH].
  unfold has_id in Hy. rewrite E in Hy.
  assert (strict_equals k k = true) by now apply strict_equals_eq. congruence.
Qed.

Lemma useDeviceSSE_snoc (messages : list NetworkDevice) (m : NetworkDevice) :
  useDeviceSSE (messages ++ [m])%list = onmessage_update m (useDeviceSSE messages).
Proof. unfold useDeviceSSE. now rewrite fold_left_app. Qed.

(** X10.  Whatever the stream of messages, no two devices of the list
    have the same id. *)
Theorem stream_ids_unique (messages : list NetworkDevice) :
  NoDup (map (lookup_prop "id") (useDeviceSSE messages)).
Proof.
  induction messages as [|m messages IH] using rev_ind; [constructor |].
  rewrite useDeviceSSE_snoc, onmessage_update_replace_first,
    (replace_first_ids _ m _ eq_refl).
  destruct (existsb (has_id (lookup_prop "id" m)) (useDeviceSSE messages)) eqn:E;
    [exact IH |].
  apply existsb_has_id in E.
  apply NoDup_rev in IH. rewrite <- (rev_involutive (_ ++ _)%list).
  apply NoDup_rev. rewrite rev_app_distr. simpl. constructor; [| exact IH].
  now rewrite <- in_rev.
Qed.

Lemma find_replace_first_same (k : option string) (x : NetworkDevice)
      (l : list NetworkDevice) :
  has_id k x = true -> find (has_id k) (replace_first (has_id k) x l) = Some x.
Proof.
  intros Hx. induction l as [|y rest IH]; simpl; [now rewrite Hx |].
  destruct (has_id k y) eqn:Hy; simpl; [now rewrite Hx | now rewrite Hy].
Qed.

Lemma find_replace_first_other (k k' : option string) (x : NetworkDevice)
      (l : list NetworkDevice) :
  has_id k x = true -> has_id k' x = false ->
  find (has_id k') (replace_first (has_id k) x l) = find (has_id k') l.
Proof.
  intros Hx Hx'. unfold has_id in Hx. apply strict_equals_eq in Hx.
  induction l as [|y rest IH]; simpl; [now rewrite Hx' |].
  destruct (has_id k y) eqn:Hy; simpl.
  - rewrite Hx'.
    unfold has_id in Hy. apply strict_equals_eq in Hy.
    assert (Hy' : has_id k' y = false).
    { unfold has_id in *. now rewrite Hy, <- Hx. }
    now rewrite Hy'.
  - now rewrite IH.
Qed.

(** X11.  After any stream of messages, looking a device up by an id
    gives the last message received with that id, and nothing when no
    message had it. *)
Theorem stream_holds_latest (messages : list NetworkDevice) (k : option string) :
  find (has_id k) (useDeviceSSE messages) = find_last (has_id k) messages.
Proof.
  unfold find_last.
  induction messages as [|m messages IH] using rev_ind; [reflexivity |].
  rewrite useDeviceSSE_snoc, onmessage_update_replace_first, rev_app_distr.
  simpl. destruct (has_id k m) eqn:Hm.
  - assert (E : lookup_prop "id" m = k)
      by (unfold has_id in Hm; now apply strict_equals_eq in Hm).
    rewrite E. now apply find_replace_first_same.
  - rewrite find_replace_first_other; [exact IH | apply has_id_refl | exact Hm].
Qed.

(** X12.  A message received twice in a row changes nothing the second
    time. *)
Theorem repeated_message_is_idle (newDevice : NetworkDevice)
        (prev : list NetworkDevice) :
  onmessage_update newDevice (onmessage_update newDevice prev)
  = onmessage_update newDevice prev.
Proof.
  rewrite !onmessage_update_replace_first.
  pose proof (has_id_refl newDevice) as Hx.
  induction prev as [|y rest IH]; simpl.
  - now rewrite Hx.
  - destruct (has_id (lookup_prop "id" newDevice) y) eqn:Hy; simpl.
    + now rewrite Hx.
    + now rewrite Hy, IH.
Qed.

(** X13.  A message touches no device with another id: the devices
    whose id differs from the new one's are the same, in the same order,
    before and after. *)
Theorem message_leaves_others (newDevice : NetworkDevice)
        (prev : list NetworkDevice) :
  filter (fun d => negb (has_id (lookup_prop "id" newDevice) d))
         (onmessage_update newDevice prev)
  = filter (fun d => negb (has_id (lookup_prop "id" newDevice) d)) prev.
Proof.
  rewrite onmessage_update_replace_first.
  pose proof (has_id_refl newDevice) as Hx.
  induction prev as [|y rest IH]; simpl.
  - now rewrite Hx.
  - destruct (has_id (lookup_prop "id" newDevice) y) eqn:Hy; simpl.
    + now rewrite Hx.
    + now rewrite Hy, IH.
Qed.

(** * The card's memo comparison *)

(** X14.  [DeviceCard] is spared a render exactly when the new device
    has the same properties with the same values in the same order as the
    previous one; any other device, one with the same properties in
    another order included, renders the card again. *)
Theorem card_rerenders_iff_device_differs (prevDevice nextDevice : NetworkDevice) :
  DeviceCard_propsAreEqual prevDevice nextDevice = true
  <-> prevDevice = nextDevice.
Proof.
  unfold DeviceCard_propsAreEqual. rewrite String.eqb_eq. split.
  - intros H.
    assert (E : JSON_stringify [prevDevice] = JSON_stringify [nextDevice])
      by (unfold JSON_stringify; cbn [join_comma]; now rewrite H).
    apply JSON_stringify_inj in E. now injection E.
  - now intros ->.
Qed.

(** * The delay before a retry *)

(** X15.  The delay before a retry is at least a second and at most
    thirty seconds: it doubles from 1000 ms up to the fourth retry and is
    30000 ms from the fifth on. *)
Theorem retryDelay_bounds (attemptIndex : N) :
  (1000 <= retryDelay attemptIndex <= 30000)%N
  /\ ((attemptIndex <= 4)%N -> retryDelay attemptIndex = (1000 * 2 ^ attemptIndex)%N)
  /\ ((5 <= attemptIndex)%N -> retryDelay attemptIndex = 30000%N).
Proof.
  unfold retryDelay.
  assert (Hpos : (1 <= 2 ^ attemptIndex)%N).
  { change 1%N with (2 ^ 0)%N. apply N.pow_le_mono_r; lia. }
  split; [| split].
  - split; [apply N.min_glb; lia | apply N.le_min_r].
  - intros H. apply N.min_l.
    assert (2 ^ attemptIndex <= 2 ^ 4)%N by (apply N.pow_le_mono_r; lia).
    change (2 ^ 4)%N with 16%N in *. lia.
  - intros H. apply N.min_r.
    assert (2 ^ 5 <= 2 ^ attemptIndex)%N by (apply N.pow_le_mono_r; lia).
    change (2 ^ 5)%N with 32%N in *. lia.
Qed.

Lemma retryDelay_bounds_witness :
  retryDelay 2 = 4000%N /\ retryDelay 7 = 30000%N.
Proof.
  split.
  - apply (proj1 (proj2 (retryDelay_bounds 2))). discriminate.
  - apply (proj2 (proj2 (retryDelay_bounds 7))). discriminate.
Defined.

(** X16.  A later retry never waits less than an earlier one. *)
Theorem retryDelay_monotone (n m : N) :
  (n <= m)%N -> (retryDelay n <= retryDelay m)%N.
Proof.
  intros H. unfold retryDelay.
  apply N.min_le_compat_r, N.mul_le_mono_l, N.pow_le_mono_r; lia.
Qed.

Lemma retryDelay_monotone_witness : (retryDelay 1 <= retryDelay 3)%N.
Proof. apply retryDelay_monotone. discriminate. Defined.

(** * useCachedDevices *)

Lemma cached_settle (o : FetchOutcome) (w : World) :
  exec (CachedDevices.fetchDevices_settle o) w
  = match o with
    | FetchResponded {| status := _; body := JsonValue l |} => after_success_cached l w
    | _ => set_isFetching_false w
    end.
Proof.
  destruct w. destruct o as [t|[st [l|t]]];
    cbv beta iota zeta delta
      [CachedDevices.fetchDevices_settle CachedDevices.fetchDevices_resume
       CachedDevices.fetchDevices_catch after_success_cached set_isFetching_false
       exec try_catch bind ret throw read modify
       setDevices setIsLoading setIsFetching setError write_cacheRef
       console_error negb snd body
       devices devicesVersion isLoading isFetching error cacheRef
       abortControllerRef nextController aborted inflight pollTimer];
    try reflexivity.
  destruct (JSON_stringify l =? JSON_stringify _)%string; reflexivity.
Qed.

Lemma cached_call (w : World) :
  isLoading (exec CachedDevices.fetchDevices_call w) = isLoading w
  /\ devices (exec CachedDevices.fetchDevices_call w) = devices w
  /\ cacheRef (exec CachedDevices.fetchDevices_call w) = cacheRef w.
Proof.
  destruct w as [d v l f e cache c n ab fl t].
  cbv beta iota zeta delta
    [CachedDevices.fetchDevices_call CachedDevices.fetchDevices_begin
     CachedDevices.fetchDevices_catch
     exec try_catch bind ret throw read modify setIsFetching console_error snd
     devices devicesVersion isLoading isFetching error cacheRef
     abortControllerRef nextController aborted inflight pollTimer].
  destruct (0 <? List.length cache)%nat; repeat split.
Qed.

Lemma cached_step (e : CachedDevices.Event) (w : World) :
  isLoading (CachedDevices.step e w)
  = (if CachedDevices.parsed e then false else isLoading w)
  /\ (devices w = cacheRef w ->
      devices (CachedDevices.step e w) = cacheRef (CachedDevices.step e w)).
Proof.
  destruct e as [| |o|]; simpl.
  - destruct (cached_call w) as (H1 & H2 & H3). now rewrite H1, H2, H3.
  - destruct (pollTimer w); [| auto].
    destruct (cached_call w) as (H1 & H2 & H3). now rewrite H1, H2, H3.
  - rewrite cached_settle. destruct o as [t|[st [l|t]]].
    + split; [reflexivity | auto].
    + split; [reflexivity |]. intros H. unfold after_success_cached.
      destruct (negb (JSON_stringify l =? JSON_stringify (cacheRef w))%string);
        [reflexivity | exact H].
    + split; [reflexivity | auto].
  - auto.
Qed.

(** X17.  In [useCachedDevices], [isLoading] is false exactly when the
    body of some response has been read and parsed: a rejected request or
    an unreadable body never clears it, and nothing sets it to true
    again. *)
Theorem cached_isLoading_until_first_body (events : list CachedDevices.Event) :
  isLoading (CachedDevices.run events initial_world)
  = negb (existsb CachedDevices.parsed events).
Proof.
  induction events as [|e events IH] using rev_ind; [reflexivity |].
  unfold CachedDevices.run in *. rewrite fold_left_app. simpl.
  rewrite (proj1 (cached_step e _)), IH, existsb_app. simpl.
  rewrite orb_false_r.
  destruct (CachedDevices.parsed e); [now rewrite orb_true_r | now rewrite orb_false_r].
Qed.

(** X18.  [useCachedDevices] does not look at the status of a response:
    the body of a response that parses becomes [devices], with a status
    of 500 as with one of 200. *)
Theorem cached_accepts_any_status (events : list CachedDevices.Event)
        (r : Response) (l : list NetworkDevice) :
  body r = JsonValue l ->
  let w := CachedDevices.run (events ++ [CachedDevices.Settle (FetchResponded r)])%list
             initial_world in
  devices w = l /\ cacheRef w = l /\ isLoading w = false /\ isFetching w = false.
Proof.
  intros Hb. cbv zeta.
  assert (Hinv : forall evs,
            devices (CachedDevices.run evs initial_world)
            = cacheRef (CachedDevices.run evs initial_world)).
  { intros evs. induction evs as [|e evs IH] using rev_ind; [reflexivity |].
    unfold CachedDevices.run in *. rewrite fold_left_app. simpl.
    now apply cached_step. }
  unfold CachedDevices.run in *. rewrite fold_left_app. simpl.
  rewrite cached_settle. destruct r as [st b]. simpl in Hb. subst b.
  specialize (Hinv events).
  set (w := fold_left (fun w e => CachedDevices.step e w) events initial_world) in *.
  unfold after_success_cached.
  destruct (negb (JSON_stringify l =? JSON_stringify (cacheRef w))%string) eqn:Hch;
    simpl.
  - auto.
  - apply negb_false_iff, String.eqb_eq, JSON_stringify_inj in Hch.
    rewrite Hinv, Hch. auto.
Qed.

Lemma cached_accepts_any_status_witness :
  devices (CachedDevices.run
             [CachedDevices.EffectRun;
              CachedDevices.Settle
                (FetchResponded {| status := 500; body := JsonValue [dev_A] |})]
             initial_world)
  = [dev_A].
Proof.
  apply (proj1 (cached_accepts_any_status [CachedDevices.EffectRun]
                  {| status := 500; body := JsonValue [dev_A] |} [dev_A] eq_refl)).
Defined.

(** * cleanup.sh: which answers delete *)

Lemma matches_NoMatch (s : string) : matches NoMatch s = false.
Proof. induction s as [|c s IH]; [reflexivity | exact IH]. Qed.

Lemma matches_Or (r1 r2 : Regex) (s : string) :
  matches (Or r1 r2) s = matches r1 s || matches r2 s.
Proof.
  revert r1 r2. induction s as [|c s IH]; intros r1 r2; [reflexivity |].
  simpl. apply IH.
Qed.

Lemma matches_Then_NoMatch (r : Regex) (s : string) :
  matches (Then NoMatch r) s = false.
Proof. induction s as [|c s IH]; [reflexivity | exact IH]. Qed.

Lemma matches_Then_EmptyMatch (r : Regex) (s : string) :
  matches (Then EmptyMatch r) s = matches r s.
Proof.
  destruct s as [|c s]; [reflexivity |].
  simpl. now rewrite matches_Or, matches_Then_NoMatch.
Qed.

Lemma matches_EmptyMatch (s : string) :
  matches EmptyMatch s = match s with EmptyString => true | _ => false end.
Proof. destruct s as [|c s]; [reflexivity | apply matches_NoMatch]. Qed.

Lemma matches_OneOf (cs : list ascii) (s : string) :
  matches (OneOf cs) s
  = match s with
    | String c EmptyString => existsb (Ascii.eqb c) cs
    | _ => false
    end.
Proof.
  destruct s as [|c s]; [reflexivity |]. simpl.
  destruct (existsb (Ascii.eqb c) cs).
  - rewrite matches_EmptyMatch. now destruct s.
  - rewrite matches_NoMatch. now destruct s.
Qed.

Lemma matches_Then_OneOf (cs : list ascii) (r : Regex) (s : string) :
  matches (Then (OneOf cs) r) s
  = match s with
    | EmptyString => false
    | String c rest => existsb (Ascii.eqb c) cs && matches r rest
    end.
Proof.
  destruct s as [|c s]; [reflexivity |]. simpl.
  destruct (existsb (Ascii.eqb c) cs); simpl.
  - apply matches_Then_EmptyMatch.
  - apply matches_Then_NoMatch.
Qed.

Lemma one_of_two (c a b : ascii) :
  existsb (Ascii.eqb c) [a; b] = true -> c = a \/ c = b.
Proof.
  simpl. rewrite orb_false_r. intros H. apply orb_true_iff in H as [H | H];
    apply Ascii.eqb_eq in H; auto.
Qed.

(** X19.  The script deletes the images, and the volumes, only on one
    of ten answers: [y], [Y], or [yes] in any mix of upper and lower
    case.  The empty answer and every other one, such as [no], [ye] or
    [yess], keep them. *)
Theorem confirms_exactly (response : string) :
  confirms response = true
  <-> In response
        ["y"; "Y"; "yes"; "yeS"; "yEs"; "yES"; "Yes"; "YeS"; "YEs"; "YES"].
Proof.
  split.
  - unfold confirms, confirm_pattern.
    rewrite matches_Or, matches_Then_OneOf, matches_OneOf.
    intros H. apply orb_true_iff in H as [H | H].
    + destruct response as [|c1 rest]; [discriminate |].
      apply andb_true_iff in H as [H1 H].
      rewrite matches_Then_OneOf in H.
      destruct rest as [|c2 rest]; [discriminate |].
      apply andb_true_iff in H as [H2 H].
      rewrite matches_OneOf in H.
      destruct rest as [|c3 [|c4 rest]]; try discriminate.
      apply one_of_two in H1, H2, H.
      destruct H1 as [-> | ->], H2 as [-> | ->], H as [-> | ->]; simpl; tauto.
    + destruct response as [|c1 [|c2 rest]]; try discriminate.
      apply one_of_two in H. destruct H as [-> | ->]; simpl; tauto.
  - intros H. repeat (destruct H as [<- | H]; [reflexivity |]). contradiction.
Qed.

Lemma confirms_exactly_witness :
  In "Yes" ["y"; "Y"; "yes"; "yeS"; "yEs"; "yES"; "Yes"; "YeS"; "YEs"; "YES"]
  /\ confirms "" = false.
Proof.
  split.
  - apply (proj1 (confirms_exactly "Yes")). reflexivity.
  - destruct (confirms "") eqn:E; [| reflexivity].
    apply (proj1 (confirms_exactly "")) in E. simpl in E.
    repeat (destruct E as [E | E]; [discriminate |]). contradiction.
Defined.

(** * The start script: waiting for a service *)

Lemma wait_loop_from_spec (probe : nat -> bool) (rounds i : nat) :
  slept (wait_loop_from probe i rounds) <= 2 * rounds
  /\ (In EchoReady (wait_loop_from probe i rounds)
      <-> exists j, i <= j < i + rounds /\ probe j = true)
  /\ (forall k, In (Curl k) (wait_loop_from probe i rounds) ->
                i <= k < i + rounds
                /\ forall j, i <= j < k -> probe j = false).
Proof.
  revert i. induction rounds as [|rounds IH]; intros i.
  - simpl. split; [lia |]. split; [| contradiction].
    split; [contradiction |]. intros (j & Hj & _). lia.
  - destruct (IH (S i)) as (Hs & Hr & Hc). simpl.
    destruct (probe i) eqn:Hp.
    + split; [simpl; lia |]. split.
      * split; [| simpl; auto]. intros _. exists i. split; [lia | exact Hp].
      * intros k [E | [E | []]]; [| discriminate]. injection E as <-.
        split; [lia |]. intros j Hj. lia.
    + split; [simpl; lia |]. split.
      * split.
        -- intros [E | [E | [E | H]]]; try discriminate.
           apply Hr in H as (j & Hj & Hpj). exists j. split; [lia | exact Hpj].
        -- intros (j & Hj & Hpj). right. right. right. apply Hr.
           exists j. split; [| exact Hpj].
           destruct (Nat.eq_dec j i) as [-> | Hne]; [congruence | lia].
      * intros k [E | [E | [E | H]]]; try discriminate.
        -- injection E as <-. split; [lia |]. intros j Hj. lia.
        -- apply Hc in H as [Hk Hbefore]. split; [lia |].
           intros j Hj. destruct (Nat.eq_dec j i) as [-> | Hne]; [exact Hp |].
           apply Hbefore. lia.
Qed.

(** X20.  A wait loop of the start script sleeps sixty seconds at most,
    never probes again after a probe has succeeded, and reports the
    service ready exactly when one of the thirty probes succeeds. *)
Theorem wait_loop_bounded (probe : nat -> bool) :
  slept (wait_loop probe) <= 60
  /\ (In EchoReady (wait_loop probe)
      <-> exists j, 1 <= j <= 30 /\ probe j = true)
  /\ (forall k, In (Curl k) (wait_loop probe) ->
                1 <= k <= 30 /\ forall j, 1 <= j < k -> probe j = false).
Proof.
  unfold wait_loop.
  destruct (wait_loop_from_spec probe 30 1) as (Hs & Hr & Hc).
  split; [lia |]. split.
  - rewrite Hr. split; intros (j & Hj & Hp); exists j; (split; [lia | exact Hp]).
  - intros k Hk. apply Hc in Hk as [Hk Hb]. split; [lia | exact Hb].
Qed.

(** * Exceptions, and bodies that are no arrays *)

Ltac unfold_untyped :=
  cbv beta iota zeta delta
    [Untyped.fetchDevices_begin Untyped.fetchDevices_resume
     Untyped.fetchDevices_catch Untyped.fetchDevices_call
     Untyped.fetchDevices_settle Untyped.refetch Untyped.length_positive
     Untyped.exec Untyped.completion Untyped.try_catch Untyped.bind
     Untyped.ret Untyped.throw Untyped.read Untyped.modify
     Untyped.setDevices Untyped.setIsLoading Untyped.setIsFetching
     Untyped.setError Untyped.write_cacheRef Untyped.write_abortControllerRef
     Untyped.new_AbortController Untyped.abort Untyped.fetch
     Untyped.console_error negb fst snd
     Untyped.devices Untyped.devicesVersion Untyped.isLoading
     Untyped.isFetching Untyped.error Untyped.cacheRef
     Untyped.abortControllerRef Untyped.nextController Untyped.aborted
     Untyped.inflight Untyped.pollTimer].

(** With an array in the cache, the [catch] block returns normally and
    leaves the cache alone. *)
Lemma untyped_catch_array (err : Thrown) (w : Untyped.State)
      (l : list NetworkDevice) :
  Untyped.cacheRef w = Untyped.JsArray l ->
  Untyped.completion (Untyped.fetchDevices_catch err) w = Normal tt
  /\ Untyped.cacheRef (Untyped.exec (Untyped.fetchDevices_catch err) w)
     = Untyped.JsArray l.
Proof.
  destruct w as [d v ld f e cache c n ab fl t]. simpl. intros ->.
  unfold_untyped. destruct (is_AbortError err); [now split |].
  destruct (0 <? List.length l)%nat; now split.
Qed.

Lemma untyped_call_array (options : UseNetworkDevicesOptions) (b : bool)
      (w : Untyped.State) (l : list NetworkDevice) :
  Untyped.cacheRef w = Untyped.JsArray l ->
  Untyped.completion (Untyped.fetchDevices_call options b) w = Normal tt
  /\ Untyped.cacheRef (Untyped.exec (Untyped.fetchDevices_call options b) w)
     = Untyped.JsArray l.
Proof.
  destruct w as [d v ld f e cache [c|] n ab fl t]; simpl; intros ->;
    unfold_untyped; destruct (enabled options); try (now split);
    destruct (0 <? List.length l)%nat, b; now split.
Qed.

Lemma untyped_settle_array (o : FetchOutcome) (w : Untyped.State)
      (l : list NetworkDevice) :
  Untyped.cacheRef w = Untyped.JsArray l ->
  Untyped.completion (Untyped.fetchDevices_settle (Untyped.Typed o)) w = Normal tt
  /\ exists l',
       Untyped.cacheRef
         (Untyped.exec (Untyped.fetchDevices_settle (Untyped.Typed o)) w)
       = Untyped.JsArray l'.
Proof.
  intros Hc.
  assert (Hcatch : forall err,
            Untyped.fetchDevices_settle (Untyped.Typed o) w
            = Untyped.fetchDevices_catch err w ->
            Untyped.completion (Untyped.fetchDevices_settle (Untyped.Typed o)) w
            = Normal tt
            /\ exists l',
                 Untyped.cacheRef
                   (Untyped.exec (Untyped.fetchDevices_settle (Untyped.Typed o)) w)
                 = Untyped.JsArray l').
  { intros err E. unfold Untyped.completion, Untyped.exec. rewrite E.
    destruct (untyped_catch_array err w l Hc) as [H1 H2].
    split; [exact H1 | now exists l]. }
  destruct o as [t|[st [l0|t]]].
  - apply (Hcatch t). reflexivity.
  - destruct ((200 <=? st)%N && (st <=? 299)%N) eqn:Hok.
    + destruct w as [d v ld f e cache c n ab fl t]. simpl in Hc. subst cache.
      unfold_untyped. cbn [status body]. rewrite Hok. unfold_untyped.
      destruct (Untyped.stringify_value (Untyped.JsArray l0)
                =? Untyped.stringify_value (Untyped.JsArray l))%string;
        (split; [reflexivity | eexists; reflexivity]).
    + apply (Hcatch (ThrownError
                       (new_Error ("HTTP error! status: " ++ status_text st)))).
      unfold Untyped.fetchDevices_settle, Untyped.try_catch,
        Untyped.fetchDevices_resume, Untyped.bind, Untyped.ret, Untyped.throw.
      cbn [status body]. rewrite Hok. reflexivity.
  - destruct ((200 <=? st)%N && (st <=? 299)%N) eqn:Hok.
    + apply (Hcatch t).
      unfold Untyped.fetchDevices_settle, Untyped.try_catch,
        Untyped.fetchDevices_resume, Untyped.bind, Untyped.ret, Untyped.throw.
      cbn [status body]. rewrite Hok. reflexivity.
    + apply (Hcatch (ThrownError
                       (new_Error ("HTTP error! status: " ++ status_text st)))).
      unfold Untyped.fetchDevices_settle, Untyped.try_catch,
        Untyped.fetchDevices_resume, Untyped.bind, Untyped.ret, Untyped.throw.
      cbn [status body]. rewrite Hok. reflexivity.
Qed.

Lemma untyped_step_array (options : UseNetworkDevicesOptions)
      (e : Untyped.Event) (w : Untyped.State) :
  Untyped.array_bodied e = true ->
  (exists l, Untyped.cacheRef w = Untyped.JsArray l) ->
  fst (Untyped.step options e w) = Normal tt
  /\ exists l, Untyped.cacheRef (snd (Untyped.step options e w)) = Untyped.JsArray l.
Proof.
  intros He [l Hc]. destruct e as [b|c [o|st]]; try discriminate.
  - destruct (untyped_call_array options b w l Hc) as [H1 H2].
    split; [exact H1 | now exists l].
  - simpl. destruct (mem c (Untyped.inflight w)); [| split; [reflexivity | now exists l]].
    now apply (untyped_settle_array o _ l).
Qed.

(** On array bodies the two runs of [fetchDevices] agree: the state with
    lists is the state with arrays. *)
Lemma untyped_call_agrees (options : UseNetworkDevicesOptions) (b : bool)
      (w : World) :
  Untyped.fetchDevices_call options b (as_untyped w)
  = (fst (fetchDevices_call options b w),
     as_untyped (snd (fetchDevices_call options b w))).
Proof.
  destruct (enabled options) eqn:Hen.
  - rewrite call_enabled by assumption.
    unfold Untyped.fetchDevices_call. rewrite Hen.
    destruct w as [d v ld f e cache [c|] n ab fl t];
      unfold as_untyped, after_call; unfold_untyped;
      cbn [devices devicesVersion isLoading isFetching error cacheRef
           abortControllerRef nextController aborted inflight pollTimer
           fst snd];
      destruct (0 <? List.length cache)%nat, b; reflexivity.
  - rewrite call_disabled by assumption.
    unfold Untyped.fetchDevices_call. now rewrite Hen.
Qed.

Lemma untyped_settle_agrees (o : FetchOutcome) (w : World) :
  Untyped.fetchDevices_settle (Untyped.Typed o) (as_untyped w)
  = (fst (fetchDevices_settle o w), as_untyped (snd (fetchDevices_settle o w))).
Proof.
  assert (Hna : forall m, is_AbortError (ThrownError (new_Error m)) = false)
    by reflexivity.
  rewrite settle_verdict. cbn [fst snd].
  destruct w as [d v ld f e cache c n ab fl t].
  destruct o as [t0|[st [l|t0]]]; unfold verdict, ok; cbn [status body].
  - unfold as_untyped, after_failure. unfold_untyped.
    cbn [devices devicesVersion isLoading isFetching error cacheRef
         abortControllerRef nextController aborted inflight pollTimer].
    destruct (is_AbortError t0); [reflexivity |].
    destruct (0 <? List.length cache)%nat; reflexivity.
  - destruct ((200 <=? st)%N && (st <=? 299)%N) eqn:Hok.
    + unfold as_untyped, after_success. unfold_untyped. cbn [status body].
      rewrite Hok. unfold_untyped.
      cbn [devices devicesVersion isLoading isFetching error cacheRef
           abortControllerRef nextController aborted inflight pollTimer
           Untyped.stringify_value].
      destruct (JSON_stringify l =? JSON_stringify cache)%string; reflexivity.
    + unfold as_untyped, after_failure, http_error. rewrite Hna.
      unfold_untyped. cbn [status body]. rewrite Hok. unfold_untyped.
      rewrite Hna.
      cbn [devices devicesVersion isLoading isFetching error cacheRef
           abortControllerRef nextController aborted inflight pollTimer].
      destruct (0 <? List.length cache)%nat; reflexivity.
  - destruct ((200 <=? st)%N && (st <=? 299)%N) eqn:Hok.
    + unfold as_untyped, after_failure. unfold_untyped. cbn [status body].
      rewrite Hok. unfold_untyped.
      cbn [devices devicesVersion isLoading isFetching error cacheRef
           abortControllerRef nextController aborted inflight pollTimer].
      destruct (is_AbortError t0); [reflexivity |].
      destruct (0 <? List.length cache)%nat; reflexivity.
    + unfold as_untyped, after_failure, http_error. rewrite Hna.
      unfold_untyped. cbn [status body]. rewrite Hok. unfold_untyped.
      rewrite Hna.
      cbn [devices devicesVersion isLoading isFetching error cacheRef
           abortControllerRef nextController aborted inflight pollTimer].
      destruct (0 <? List.length cache)%nat; reflexivity.
Qed.

(** C10, amended.  As long as no response body has parsed to something
    that is no array, no part of [fetchDevices] completes abruptly: in
    every run whose settled requests have failed or have given an array,
    each call and each completion returns normally, so no promise of
    [fetchDevices], hence of [refetch()], is rejected; with an array in
    the cache the call, the [catch] block and the rest of the call return
    normally whatever is thrown and whatever the request settles to.  When
    [enabled] is false the call returns at once and leaves everything as
    it was, the requests in flight included. *)
Theorem never_rejects_on_array_bodies (options : UseNetworkDevicesOptions) :
  (forall events,
     Forall (fun e => Untyped.array_bodied e = true) events ->
     Forall (fun c => c = Normal tt)
            (Untyped.completions options events Untyped.initial_state))
  /\ (forall b err o w l,
        Untyped.cacheRef w = Untyped.JsArray l ->
        Untyped.completion (Untyped.fetchDevices_call options b) w = Normal tt
        /\ Untyped.completion (Untyped.refetch options) w = Normal tt
        /\ Untyped.completion (Untyped.fetchDevices_catch err) w = Normal tt
        /\ Untyped.completion (Untyped.fetchDevices_settle (Untyped.Typed o)) w
           = Normal tt)
  /\ (forall b w,
        enabled options = false ->
        Untyped.fetchDevices_call options b w = (Normal tt, w)).
Proof.
  split; [| split].
  - intros events Hall.
    assert (H : forall w,
              (exists l, Untyped.cacheRef w = Untyped.JsArray l) ->
              Forall (fun c => c = Normal tt)
                     (Untyped.completions options events w)).
    { induction Hall as [|e events He _ IH]; intros w Hw; simpl; constructor.
      - now apply untyped_step_array.
      - apply IH. now apply untyped_step_array. }
    apply H. now exists [].
  - intros b err o w l Hc.
    split; [apply (untyped_call_array options b w l Hc) |].
    split; [apply (untyped_call_array options false w l Hc) |].
    split; [apply (untyped_catch_array err w l Hc) |].
    apply (untyped_settle_array o w l Hc).
  - intros b w Hen. unfold Untyped.fetchDevices_call. now rewrite Hen.
Qed.

Lemma never_rejects_on_array_bodies_witness :
  Forall (fun c => c = Normal tt)
    (Untyped.completions default_options
       [Untyped.Call true;
        Untyped.Settle 0 (Untyped.Typed (FetchRejected NetworkError));
        Untyped.Call false;
        Untyped.Settle 1
          (Untyped.Typed (FetchResponded {| status := 500; body := JsonValue [] |}));
        Untyped.Call false;
        Untyped.Settle 2 (Untyped.Typed (ok_with [dev_A]))]
       Untyped.initial_state)
  /\ Untyped.fetchDevices_call {| refetchInterval := 10000; enabled := false |}
       false Untyped.initial_state
     = (Normal tt, Untyped.initial_state).
Proof.
  split.
  - apply (proj1 (never_rejects_on_array_bodies default_options)).
    repeat constructor.
  - apply (proj2 (proj2 (never_rejects_on_array_bodies
                           {| refetchInterval := 10000; enabled := false |}))).
    reflexivity.
Defined.

(** C10 as stated fails: a response with status 200 whose body is [null]
    takes the [try] block to its end and leaves [null] in the cache; the
    next call throws at line 46, inside the [try] block, and again at line
    85, inside the [catch] block, so the promise [refetch()] returns is
    rejected with a [TypeError], and no request is issued. *)
Lemma null_body_makes_refetch_reject :
  let w := snd (Untyped.step default_options
                  (Untyped.Settle 0 (Untyped.RespondedNull 200))
                  (snd (Untyped.step default_options (Untyped.Call true)
                          Untyped.initial_state))) in
  Untyped.completions default_options
    [Untyped.Call true; Untyped.Settle 0 (Untyped.RespondedNull 200)]
    Untyped.initial_state
  = [Normal tt; Normal tt]
  /\ Untyped.cacheRef w = Untyped.JsNull
  /\ Untyped.completion (Untyped.refetch default_options) w
     = Throw Untyped.null_TypeError
  /\ Untyped.inflight (Untyped.exec (Untyped.refetch default_options) w) = [].
Proof. vm_compute. repeat split. Qed.
